(** * The web chat channel: record store, snapshot file and event fan-out

    A shallow embedding of [nanobot/channels/webchat.py]: the [ChatStore]
    (an insertion-ordered dict of [ChatRecord]s that is rewritten to
    [web_chats.json] after every mutation), the Flask routes that create
    chats and submit messages, the SSE subscriber registry, and
    [WebChatChannel.send].

    Conventions of the embedding.
    - A Python [str] is its list of code points, so that [str.strip] and
      string comparison are the ones Python performs.
    - A Python value is one of the values [json.loads] returns; numbers
      with a fraction or an exponent (Python floats) are not represented.
    - The text of a file is represented by a value that [json.dumps]
      writes as that text; what [json.loads] reads from it is given by
      [loads_dumps], which is not the identity: a high surrogate that is
      directly followed by a low one comes back as one character.  The
      write of the snapshot is assumed to succeed.
    - Every operation runs under the lock of its object, so each one is
      an atomic transformer of the [World]; a raised exception keeps the
      mutations performed before it, as in Python.
    - [uuid.uuid4().hex] and [_utc_now()] are inputs of [create_chat]. *)

From Stdlib Require Import ZArith NArith String Ascii List Sorting.Sorted Lia.
From Stdlib Require Import DecimalString.
From stdpp Require Import base option list gmap.

Set Default Proof Using "Type".
Open Scope Z_scope.

(** ** Python strings *)

Definition pystr := list N.

Definition py (s : string) : pystr := map N_of_ascii (list_ascii_of_string s).

(** [str.isspace] for one code point (CPython's [_PyUnicode_IsWhitespace]). *)
Definition isspace (c : N) : bool :=
  (((9 <=? c) && (c <=? 13)) || ((28 <=? c) && (c <=? 32)) || (c =? 133)
   || (c =? 160) || (c =? 5760) || ((8192 <=? c) && (c <=? 8202))
   || (c =? 8232) || (c =? 8233) || (c =? 8239) || (c =? 8287)
   || (c =? 12288))%N.

Fixpoint lstrip (s : pystr) : pystr :=
  match s with
  | c :: s' => if isspace c then lstrip s' else s
  | [] => []
  end.

Definition rstrip (s : pystr) : pystr := rev (lstrip (rev s)).

(** [s.strip()] *)
Definition strip (s : pystr) : pystr := rstrip (lstrip s).

(** [s < t] on strings: lexicographic on code points. *)
Fixpoint str_lt (s t : pystr) : bool :=
  match s, t with
  | _, [] => false
  | [], _ :: _ => true
  | a :: s', b :: t' =>
      if (a <? b)%N then true else if (a =? b)%N then str_lt s' t' else false
  end.

(** ** Python values, exceptions *)

#[warnings="-register-all"]
Inductive value : Type :=
| PNone
| PBool (b : bool)
| PInt (n : Z)
| PStr (s : pystr)
| PList (l : list value)
| PDict (d : list (pystr * value)).

Inductive exn : Type :=
| KeyError (k : value)
| TypeError
| AttributeError
| ValueError
| DecodeError.

Inductive result (A : Type) : Type :=
| Ok (a : A)
| Raise (e : exn).
Arguments Ok {A} a.
Arguments Raise {A} e.

#[export] Instance result_ret : MRet result := fun A a => Ok a.
#[export] Instance result_bind : MBind result := fun A B f m =>
  match m with Ok a => f a | Raise e => Raise e end.

(** Lookup in a dict whose keys are strings (first binding; a dict built
    by [json.loads] binds each key once). *)
Fixpoint str_lookup (k : pystr) (d : list (pystr * value)) : option value :=
  match d with
  | [] => None
  | (k', v) :: d' => if decide (k' = k) then Some v else str_lookup k d'
  end.

(** [d[k] = v] on such a dict. *)
Fixpoint str_set (k : pystr) (v : value) (d : list (pystr * value))
  : list (pystr * value) :=
  match d with
  | [] => [(k, v)]
  | (k', v') :: d' =>
      if decide (k' = k) then (k', v) :: d' else (k', v') :: str_set k v d'
  end.

Definition as_int (v : value) : option Z :=
  match v with
  | PBool b => Some (if b then 1 else 0)
  | PInt n => Some n
  | _ => None
  end.

(** [a == b].  [True == 1]; lists are equal elementwise; dicts are equal
    when they bind the same keys to equal values. *)
Fixpoint py_eq (a b : value) : bool :=
  match a, b with
  | PNone, PNone => true
  | PStr s, PStr t => bool_decide (s = t)
  | PList l, PList m =>
      (fix go (l m : list value) : bool :=
         match l, m with
         | [], [] => true
         | x :: l', y :: m' => py_eq x y && go l' m'
         | _, _ => false
         end) l m
  | PDict d, PDict e =>
      (length d =? length e)%nat &&
      (fix go (d : list (pystr * value)) : bool :=
         match d with
         | [] => true
         | (k, v) :: d' =>
             match str_lookup k e with
             | Some v' => py_eq v v'
             | None => false
             end && go d'
         end) d
  | _, _ =>
      match as_int a, as_int b with
      | Some m, Some n => m =? n
      | _, _ => false
      end
  end.

(** [a < b].  Strings and numbers are ordered among themselves, lists
    lexicographically (the first pair of unequal elements decides);
    every other pair raises [TypeError]. *)
Fixpoint py_lt (a b : value) : result bool :=
  match a, b with
  | PStr s, PStr t => Ok (str_lt s t)
  | PList l, PList m =>
      (fix go (l m : list value) : result bool :=
         match l, m with
         | [], [] => Ok false
         | [], _ :: _ => Ok true
         | _ :: _, [] => Ok false
         | x :: l', y :: m' => if py_eq x y then go l' m' else py_lt x y
         end) l m
  | _, _ =>
      match as_int a, as_int b with
      | Some m, Some n => Ok (m <? n)
      | _, _ => Raise TypeError
      end
  end.

(** Lists and dicts are unhashable. *)
Definition hashable (v : value) : bool :=
  match v with
  | PList _ | PDict _ => false
  | _ => true
  end.

(** [for item in v] / [list(v)]: a list yields its elements, a string
    its characters, a dict its keys; nothing else is iterable. *)
Definition iter (v : value) : result (list value) :=
  match v with
  | PList l => Ok l
  | PStr s => Ok (map (fun c => PStr [c]) s)
  | PDict d => Ok (map (fun kv => PStr (fst kv)) d)
  | _ => Raise TypeError
  end.

(** [o[k]] for a string [k]. *)
Definition getitem (o : value) (k : pystr) : result value :=
  match o with
  | PDict d =>
      match str_lookup k d with
      | Some v => Ok v
      | None => Raise (KeyError (PStr k))
      end
  | _ => Raise TypeError
  end.

(** [o.get(k, default)]: only a dict has the method. *)
Definition get_method (o : value) (k : pystr) (dflt : value) : result value :=
  match o with
  | PDict d => Ok (default dflt (str_lookup k d))
  | _ => Raise AttributeError
  end.

(** ** What [json.loads] reads from the text [json.dumps] writes

    [json.dumps] (with its default [ensure_ascii]) writes a character
    above U+FFFF as the two escapes of its surrogates and a lone
    surrogate as its own escape; [json.loads] reads the escape of a high
    surrogate that is directly followed by the escape of a low surrogate
    as the one character they encode.  A string is therefore read back
    with each such pair joined, from left to right, and a dict with its
    keys read back so: a key that comes again replaces the value of the
    binding that is there. *)

Definition is_high_surrogate (c : N) : bool := ((55296 <=? c) && (c <=? 56319))%N.

Definition is_low_surrogate (c : N) : bool := ((56320 <=? c) && (c <=? 57343))%N.

Fixpoint join_surrogates (s : pystr) : pystr :=
  match s with
  | [] => []
  | a :: t =>
      match t with
      | b :: t' =>
          if is_high_surrogate a && is_low_surrogate b
          then (65536 + (a - 55296) * 1024 + (b - 56320))%N :: join_surrogates t'
          else a :: join_surrogates t
      | [] => [a]
      end
  end.

(** [json.loads(json.dumps(v))] *)
Fixpoint loads_dumps (v : value) : value :=
  match v with
  | PStr s => PStr (join_surrogates s)
  | PList l => PList (map loads_dumps l)
  | PDict d =>
      PDict ((fix pairs (d acc : list (pystr * value)) : list (pystr * value) :=
                match d with
                | [] => acc
                | (k, x) :: d' =>
                    pairs d' (str_set (join_surrogates k) (loads_dumps x) acc)
                end) d [])
  | _ => v
  end.

(** ** The store's dict, the records, the world *)

(** A Python dict in insertion order.  [d.get(k)] finds the binding whose
    key equals [k]; [d[k] = v] replaces the value of that binding where
    it stands (the key object stays) or adds a binding at the end. *)
Fixpoint dict_get {V : Type} (k : value) (d : list (value * V)) : option V :=
  match d with
  | [] => None
  | (k', v) :: d' => if py_eq k' k then Some v else dict_get k d'
  end.

Fixpoint dict_set {V : Type} (k : value) (v : V) (d : list (value * V))
  : list (value * V) :=
  match d with
  | [] => [(k, v)]
  | (k', v') :: d' =>
      if py_eq k' k then (k', v) :: d' else (k', v') :: dict_set k v d'
  end.

(** The dataclass.  Its annotations are [str] and [list[dict[str, str]]],
    but [_load] stores whatever the file holds, so the fields are values. *)
Record ChatRecord : Type := {
  id : value;
  title : value;
  created_at : value;
  history : value;
}.

(** What [web_chats.json] holds: nothing, text that [read_text] or
    [json.loads] rejects, or the text [json.dumps] writes for a value
    (any other text of the same value is read alike). *)
Inductive snapshot_file : Type :=
| NoFile
| Unreadable
| Json (v : value).

(** The observable effects, in the order they happen. *)
Inductive effect : Type :=
| EWrite (payload : value)
| EPut (q : nat) (data : value)
| ELogError (e : exn)
| ELogWarning (chat_id : pystr)
| ELogException (e : exn).

Record World : Type := {
  chats : list (value * ChatRecord);
  disk : snapshot_file;
  sse_queues : list nat;
  queues : gmap nat (list value);
  trace : list effect;
}.

Definition set_chats (c : list (value * ChatRecord)) (w : World) : World :=
  {| chats := c; disk := disk w; sse_queues := sse_queues w;
     queues := queues w; trace := trace w |}.

Definition set_disk (f : snapshot_file) (w : World) : World :=
  {| chats := chats w; disk := f; sse_queues := sse_queues w;
     queues := queues w; trace := trace w |}.

Definition set_sse_queues (l : list nat) (w : World) : World :=
  {| chats := chats w; disk := disk w; sse_queues := l;
     queues := queues w; trace := trace w |}.

Definition set_queues (m : gmap nat (list value)) (w : World) : World :=
  {| chats := chats w; disk := disk w; sse_queues := sse_queues w;
     queues := m; trace := trace w |}.

Definition add_trace (e : effect) (w : World) : World :=
  {| chats := chats w; disk := disk w; sse_queues := sse_queues w;
     queues := queues w; trace := trace w ++ [e] |}.

(** ** The monad of the operations: state, and exceptions that keep it *)

Definition M (A : Type) : Type := World -> result A * World.

#[export] Instance M_ret : MRet M := fun A a w => (Ok a, w).
#[export] Instance M_bind : MBind M := fun A B f m w =>
  match m w with
  | (Ok a, w') => f a w'
  | (Raise e, w') => (Raise e, w')
  end.

Definition lift {A : Type} (r : result A) : M A := fun w => (r, w).
Definition raise {A : Type} (e : exn) : M A := fun w => (Raise e, w).
Definition modify (f : World -> World) : M unit := fun w => (Ok tt, f w).
Definition emit (e : effect) : M unit := modify (add_trace e).

(** [try: body  except Exception as e: handler e] *)
Definition try_except {A : Type} (body : M A) (handler : exn -> M A) : M A :=
  fun w =>
    match body w with
    | (Raise e, w') => handler e w'
    | r => r
    end.

(** [try: body  except KeyError: handler]: anything else propagates. *)
Definition try_except_KeyError {A : Type} (body : M A) (handler : M A) : M A :=
  try_except body
    (fun e => match e with KeyError _ => handler | _ => raise e end).

(** [try: body  finally: cleanup]: an exception of the cleanup replaces
    the outcome of the body. *)
Definition try_finally {A : Type} (body : M A) (cleanup : M unit) : M A :=
  fun w =>
    match body w with
    | (r, w') =>
        match cleanup w' with
        | (Ok _, w'') => (r, w'')
        | (Raise e, w'') => (Raise e, w'')
        end
    end.

Fixpoint for_each {A : Type} (f : A -> M unit) (l : list A) : M unit :=
  match l with
  | [] => mret tt
  | x :: l' => _ ← f x; for_each f l'
  end.

(** ** ChatStore *)

(** [sorted(rows, key=lambda x: x.created_at, reverse=True)]: stable and
    descending, so rows with equal keys keep their order.  The rows are
    inserted from the right; Python runs a different schedule of
    comparisons, with the same result whenever the keys are comparable
    throughout, and a [TypeError] from both when a row that is not alone
    has a key that nothing orders. *)
Fixpoint insert_desc (x : ChatRecord) (l : list ChatRecord)
  : result (list ChatRecord) :=
  match l with
  | [] => Ok [x]
  | y :: l' =>
      b ← py_lt (created_at x) (created_at y);
      if b : bool then r ← insert_desc x l'; mret (y :: r) else mret (x :: l)
  end.

Fixpoint sorted_desc (l : list ChatRecord) : result (list ChatRecord) :=
  match l with
  | [] => Ok []
  | x :: l' => s ← sorted_desc l'; insert_desc x s
  end.

Definition record_json (t : ChatRecord) : value :=
  PDict [(py "id", id t); (py "title", title t);
         (py "created_at", created_at t); (py "history", history t)].

Definition summary (t : ChatRecord) : value :=
  PDict [(py "id", id t); (py "title", title t);
         (py "created_at", created_at t)].

Definition payload_of (rows : list ChatRecord) : value :=
  PDict [(py "chats", PList (map record_json rows))].

Definition values (w : World) : list ChatRecord := map snd (chats w).

Definition _save : M unit :=
  fun w =>
    (rows ← lift (sorted_desc (values w));
     _ ← modify (set_disk (Json (payload_of rows)));
     emit (EWrite (payload_of rows))) w.

(** [self._chats[k] = chat] *)
Definition chats_setitem (k : value) (chat : ChatRecord) : M unit :=
  if hashable k then modify (fun w => set_chats (dict_set k chat (chats w)) w)
  else raise TypeError.

Definition load_item (item : value) : M unit :=
  i ← lift (getitem item (py "id"));
  t ← lift (getitem item (py "title"));
  c ← lift (getitem item (py "created_at"));
  h ← lift (get_method item (py "history") (PList []));
  chats_setitem i {| id := i; title := t; created_at := c; history := h |}.

(** [json.loads(self._state_path.read_text(encoding="utf-8"))] *)
Definition read_json : M value :=
  fun w =>
    match disk w with
    | Json v => (Ok (loads_dumps v), w)
    | _ => (Raise DecodeError, w)
    end.

Definition _load : M unit :=
  fun w =>
    match disk w with
    | NoFile => (Ok tt, w)
    | _ =>
        try_except
          (raw ← read_json;
           cs ← lift (get_method raw (py "chats") (PList []));
           items ← lift (iter cs);
           for_each load_item items)
          (fun e => emit (ELogError e)) w
    end.

Definition list_chats : M value :=
  fun w =>
    (rows ← lift (sorted_desc (values w));
     mret (PList (map summary rows))) w.

(** [uuid] is [uuid.uuid4().hex], [now] is [_utc_now()]. *)
Definition create_chat (uuid now : pystr) (title : pystr) : M value :=
  let chat_id := PStr (firstn 12 uuid) in
  let chat := {| id := chat_id; title := PStr title;
                 created_at := PStr now; history := PList [] |} in
  _ ← chats_setitem chat_id chat;
  _ ← _save;
  mret (summary chat).

Definition get_messages (chat_id : pystr) : M value :=
  fun w =>
    match dict_get (PStr chat_id) (chats w) with
    | None => (Raise (KeyError (PStr chat_id)), w)
    | Some chat => (l ← lift (iter (history chat)); mret (PList l)) w
    end.

Definition message (role content : pystr) : value :=
  PDict [(py "role", PStr role); (py "content", PStr content)].

(** [chat.history.append(m)]: the record is shared with the dict, so the
    binding of [chat_id] sees the longer list. *)
Definition history_append (chat_id : pystr) (chat : ChatRecord) (m : value)
  : M unit :=
  match history chat with
  | PList l =>
      modify (fun w =>
        set_chats (dict_set (PStr chat_id)
                     {| id := id chat; title := title chat;
                        created_at := created_at chat;
                        history := PList (l ++ [m]) |} (chats w)) w)
  | _ => raise AttributeError
  end.

Definition append_message (chat_id role content : pystr) : M unit :=
  fun w =>
    match dict_get (PStr chat_id) (chats w) with
    | None => (Raise (KeyError (PStr chat_id)), w)
    | Some chat =>
        (_ ← history_append chat_id chat (message role content); _save) w
    end.

(** [ChatStore(config)] in a process that has just started on the file
    [f]: an empty dict, then [_load]. *)
Definition boot (f : snapshot_file) : World :=
  {| chats := []; disk := f; sse_queues := []; queues := ∅; trace := [] |}.

Definition ChatStore_init (f : snapshot_file) : World := snd (_load (boot f)).

(** ** WebChatChannel: routes, subscribers, delivery *)

(** What a route returns: [jsonify(body), status], or
    [jsonify({"error": str(e)}), status] for a caught exception [e]. *)
Inductive reply : Type :=
| Reply (status : Z) (body : value)
| ReplyError (status : Z) (e : exn).

Definition error_body (msg : string) : value := PDict [(py "error", PStr (py msg))].

(** [v.strip()]: only a string has the method. *)
Definition strip_method (v : value) : result pystr :=
  match v with
  | PStr s => Ok (strip s)
  | _ => Raise AttributeError
  end.

Module Routes.

(** [GET /api/chats] *)
Definition list_chats : M reply :=
  l ← list_chats; mret (Reply 200 l).

(** [POST /api/chats]; [data] is [request.json]. *)
Definition create_chat (data : value) (uuid now : pystr) : M reply :=
  t ← lift (get_method data (py "title") (PStr []));
  title ← lift (strip_method t);
  if decide (title = []) then mret (Reply 400 (error_body "title is required"))
  else created ← create_chat uuid now title; mret (Reply 201 created).

(** [GET /api/chats/<chat_id>/messages] *)
Definition get_messages (chat_id : pystr) : M reply :=
  try_except_KeyError
    (l ← get_messages chat_id; mret (Reply 200 l))
    (mret (Reply 404 (error_body "chat not found"))).

Section post.

(** [BaseChannel._handle_message(sender_id, chat_id, content)], which
    hands the text to the message bus, is defined outside this file. *)
Variable _handle_message : pystr -> pystr -> pystr -> M unit.

(** [POST /api/chats/<chat_id>/messages] *)
Definition post_message (chat_id : pystr) (data : value) : M reply :=
  c ← lift (get_method data (py "content") (PStr []));
  content ← lift (strip_method c);
  if decide (content = []) then
    mret (Reply 400 (error_body "content is required"))
  else
    try_except
      (_ ← append_message chat_id (py "user") content;
       _ ← _handle_message (py "web-user") chat_id content;
       mret (Reply 202 (PDict [(py "status", PStr (py "accepted"))])))
      (fun e => _ ← emit (ELogException e); mret (ReplyError 500 e)).

End post.

End Routes.

(** [q = queue.Queue()] and, under the lock, [self._sse_queues.append(q)]:
    the entry of [_sse_generator].  The new queue is an object no other
    queue is. *)
Definition subscribe : M nat :=
  fun w =>
    let q := fresh (dom (queues w)) in
    (Ok q, set_sse_queues (sse_queues w ++ [q])
             (set_queues (<[q := []]> (queues w)) w)).

(** [l.remove(x)]: the first occurrence goes; [None] stands for the
    [ValueError] of an absent [x]. *)
Fixpoint list_remove (x : nat) (l : list nat) : option (list nat) :=
  match l with
  | [] => None
  | y :: l' => if decide (y = x) then Some l' else (y ::.) <$> list_remove x l'
  end.

(** The [finally] of [_sse_generator]: [self._sse_queues.remove(q)]. *)
Definition unsubscribe (q : nat) : M unit :=
  fun w =>
    match list_remove q (sse_queues w) with
    | Some l => (Ok tt, set_sse_queues l w)
    | None => (Raise ValueError, w)
    end.

Inductive frame : Type :=
| Data (data : value)
| Heartbeat.

(** One turn of the generator's loop: [q.get(timeout=20)] yields the
    oldest pending event, or times out into a heartbeat. *)
Definition next_frame (q : nat) : M frame :=
  fun w =>
    match queues w !! q with
    | Some (d :: rest) => (Ok (Data d), set_queues (<[q := rest]> (queues w)) w)
    | _ => (Ok Heartbeat, w)
    end.

Fixpoint frames (q : nat) (n : nat) : M (list frame) :=
  match n with
  | O => mret []
  | S n' => f ← next_frame q; fs ← frames q n'; mret (f :: fs)
  end.

(** A stream that is read [n] times and then closed: the generator's
    registration, loop and [finally]. *)
Definition _sse_generator (n : nat) : M (list frame) :=
  q ← subscribe; try_finally (frames q n) (unsubscribe q).

Definition event (chat_id role content : pystr) : value :=
  PDict [(py "chat_id", PStr chat_id); (py "role", PStr role);
         (py "content", PStr content)].

(** [q.put(data)] *)
Definition put (data : value) (q : nat) : M unit :=
  modify (fun w =>
    add_trace (EPut q data)
      (set_queues (<[q := default [] (queues w !! q) ++ [data]]> (queues w)) w)).

Definition _notify_sse (chat_id role content : pystr) : M unit :=
  fun w => for_each (put (event chat_id role content)) (sse_queues w) w.

(** [msg.chat_id] and [msg.content] of the outbound message. *)
Definition send (chat_id content : pystr) : M unit :=
  try_except_KeyError
    (_ ← append_message chat_id (py "assistant") content;
     _notify_sse chat_id (py "assistant") content)
    (emit (ELogWarning chat_id)).

(** ** Notions the properties are stated with *)

(** The snapshot format: [{"chats": [{"id": str, "title": str,
    "created_at": str, "history": [{"role": str, "content": str}, ...]},
    ...]}]. *)
Definition is_message (v : value) : bool :=
  match v with
  | PDict d =>
      match str_lookup (py "role") d, str_lookup (py "content") d with
      | Some (PStr _), Some (PStr _) => true
      | _, _ => false
      end
  | _ => false
  end.

Definition is_record (v : value) : bool :=
  match v with
  | PDict d =>
      match str_lookup (py "id") d, str_lookup (py "title") d,
            str_lookup (py "created_at") d, str_lookup (py "history") d with
      | Some (PStr _), Some (PStr _), Some (PStr _), Some (PList h) =>
          forallb is_message h
      | _, _, _, _ => false
      end
  | _ => false
  end.

Definition well_formed (v : value) : bool :=
  match v with
  | PDict d =>
      match str_lookup (py "chats") d with
      | Some (PList l) => forallb is_record l
      | _ => false
      end
  | _ => false
  end.

(** A file that is there and is not a snapshot: unparseable text, or
    text that is read as a value that is not of the format. *)
Definition malformed (f : snapshot_file) : Prop :=
  match f with
  | NoFile => False
  | Unreadable => True
  | Json v => well_formed (loads_dumps v) = false
  end.

(** The items the loop of [_load] visits, when it gets to the loop. *)
Definition items_of (f : snapshot_file) : option (list value) :=
  match f with
  | Json v =>
      match loads_dumps v with
      | PDict d =>
          match iter (default (PList []) (str_lookup (py "chats") d)) with
          | Ok l => Some l
          | Raise _ => None
          end
      | _ => None
      end
  | _ => None
  end.

(** The record an item stands for: the item is an object with an ["id"],
    a ["title"] and a ["created_at"], and the id is hashable. *)
Definition record_of (item : value) : option ChatRecord :=
  match item with
  | PDict d =>
      match str_lookup (py "id") d, str_lookup (py "title") d,
            str_lookup (py "created_at") d with
      | Some i, Some t, Some c =>
          if hashable i then
            Some {| id := i; title := t; created_at := c;
                    history := default (PList []) (str_lookup (py "history") d) |}
          else None
      | _, _, _ => None
      end
  | _ => None
  end.

(** The records of the items before the first one that stands for none. *)
Fixpoint loaded_prefix (items : list value) : list ChatRecord :=
  match items with
  | [] => []
  | x :: rest =>
      match record_of x with
      | Some c => c :: loaded_prefix rest
      | None => []
      end
  end.

(** Each record bound under its id, in turn. *)
Definition insert_all (rs : list ChatRecord) (d : list (value * ChatRecord))
  : list (value * ChatRecord) :=
  foldl (fun d r => dict_set (id r) r d) d rs.

(** A file whose second item lacks its title. *)
Definition snapshot_missing_title : snapshot_file :=
  Json (PDict [(py "chats",
    PList [PDict [(py "id", PStr (py "a")); (py "title", PStr (py "t"));
                  (py "created_at", PStr (py "2024-01-01T00:00:00+00:00"))];
           PDict [(py "id", PStr (py "b"))]])]).

Definition is_str (v : value) : bool :=
  match v with
  | PStr _ => true
  | _ => false
  end.

(** Every record carries a string as its [created_at], as the dataclass
    declares and [create_chat] writes. *)
Definition stamps_are_str (w : World) : Prop :=
  Forall (fun r => is_str (created_at r) = true) (values w).

(** No row is older than a row that comes before it. *)
Definition newest_first (rows : list ChatRecord) : Prop :=
  StronglySorted
    (fun a b => py_lt (created_at a) (created_at b) = Ok false) rows.

(** One call of [create_chat]: the UUID and the time it draws, and the
    title it is given. *)
Record draw : Type := {
  draw_uuid : pystr;
  draw_now : pystr;
  draw_title : pystr;
}.

Definition drawn_id (d : draw) : pystr := firstn 12 (draw_uuid d).

Definition new_record (d : draw) : ChatRecord :=
  {| id := PStr (drawn_id d); title := PStr (draw_title d);
     created_at := PStr (draw_now d); history := PList [] |}.

(** The calls of [create_chat] for [ds], one after the other, with the
    summaries they return. *)
Fixpoint create_all (ds : list draw) : M (list value) :=
  match ds with
  | [] => mret []
  | d :: ds' =>
      s ← create_chat (draw_uuid d) (draw_now d) (draw_title d);
      ss ← create_all ds';
      mret (s :: ss)
  end.

(** The world after [create_chat] has bound the record of [d] and saved
    the rows [rows]. *)
Definition created (d : draw) (rows : list ChatRecord) (w : World) : World :=
  add_trace (EWrite (payload_of rows))
    (set_disk (Json (payload_of rows))
       (set_chats (dict_set (PStr (drawn_id d)) (new_record d) (chats w)) w)).

(** Two draws whose UUIDs differ and share their first twelve digits. *)
Definition first_draw : draw :=
  {| draw_uuid := py "0123456789ab4cde8f0123456789abcd";
     draw_now := py "2024-01-01T00:00:00+00:00";
     draw_title := py "first" |}.

Definition second_draw : draw :=
  {| draw_uuid := py "0123456789ab4fff8aaaaaaaaaaaaaaa";
     draw_now := py "2024-01-01T00:00:01+00:00";
     draw_title := py "second" |}.

(** A draw with an id of its own. *)
Definition third_draw : draw :=
  {| draw_uuid := py "fedcba9876544321b000000000000000";
     draw_now := py "2024-01-01T00:00:02+00:00";
     draw_title := py "third" |}.

(** A call whose exception goes to its own caller: the calls after it
    run all the same. *)
Definition outcome {A : Type} (m : M A) : M (result A) :=
  fun w => let (r, w') := m w in (Ok r, w').

(** Calls of [append_message], each with its chat id, role and content,
    one after the other. *)
Fixpoint append_each (ops : list (pystr * pystr * pystr))
  : M (list (result unit)) :=
  match ops with
  | [] => mret []
  | (c, r, t) :: ops' =>
      x ← outcome (append_message c r t);
      xs ← append_each ops';
      mret (x :: xs)
  end.

(** The messages that [ops] append to the chat [chat_id], in order. *)
Fixpoint messages_for (chat_id : pystr) (ops : list (pystr * pystr * pystr))
  : list value :=
  match ops with
  | [] => []
  | (c, r, t) :: ops' =>
      if decide (c = chat_id) then message r t :: messages_for chat_id ops'
      else messages_for chat_id ops'
  end.

(** The chat [chat_id] is in the store with the messages [l], and the
    rows of the store can be sorted. *)
Definition holds_history (chat_id : pystr) (l : list value) (w : World) : Prop :=
  (exists chat, dict_get (PStr chat_id) (chats w) = Some chat
                /\ history chat = PList l)
  /\ exists rows, sorted_desc (values w) = Ok rows.

(** The invariant of the dict of chats: every key is hashable, every
    record is bound under (a key equal to) its own id, and no two keys
    are equal. *)
Inductive dict_ok : list (value * ChatRecord) -> Prop :=
| dict_ok_nil : dict_ok []
| dict_ok_cons (k : value) (r : ChatRecord) (c : list (value * ChatRecord)) :
    hashable k = true ->
    py_eq k (id r) = true ->
    Forall (fun kr => py_eq k kr.1 = false) c ->
    dict_ok c ->
    dict_ok ((k, r) :: c).

(** The dict that binds each of the records under its id, in order. *)
Definition by_id (rows : list ChatRecord) : list (value * ChatRecord) :=
  map (fun r => (id r, r)) rows.

(** A snapshot file with the items [items] in its ["chats"]. *)
Definition snapshot (items : list value) : snapshot_file :=
  Json (PDict [(py "chats", PList items)]).

(** A store with two chats, one of them with a message. *)
Definition demo_store : World :=
  snd (append_message (drawn_id first_draw) (py "user") (py "hi")
         (snd (create_all [first_draw; third_draw] (boot NoFile)))).

(** The message [m] is the last one of the chat [chat_id], in the dict
    and in the rows the file holds. *)
Definition persisted (chat_id : pystr) (m : value) (w : World) : Prop :=
  exists rows chat l,
    disk w = Json (payload_of rows) /\
    chat ∈ rows /\
    dict_get (PStr chat_id) (chats w) = Some chat /\
    history chat = PList (l ++ [m]).

(** What the threads of the server do to the world, one call at a time. *)
Inductive channel_op : Type :=
| OpSubscribe
| OpNextFrame (q : nat)
| OpUnsubscribe (q : nat)
| OpSend (chat_id content : pystr)
| OpCreate (d : draw)
| OpAppend (chat_id role content : pystr).

Definition run_op (o : channel_op) (w : World) : World :=
  match o with
  | OpSubscribe => snd (subscribe w)
  | OpNextFrame q => snd (next_frame q w)
  | OpUnsubscribe q => snd (unsubscribe q w)
  | OpSend c t => snd (send c t w)
  | OpCreate d => snd (create_chat (draw_uuid d) (draw_now d) (draw_title d) w)
  | OpAppend c r t => snd (append_message c r t w)
  end.

Definition run_ops (ops : list channel_op) (w : World) : World :=
  foldl (fun w o => run_op o w) w ops.

(** The registry holds each queue once, and only queues that exist. *)
Definition registry_ok (w : World) : Prop :=
  NoDup (sse_queues w) /\ forall q, q ∈ sse_queues w -> q ∈ dom (queues w).


(** No high surrogate is directly followed by a low surrogate. *)
Fixpoint pair_free (s : pystr) : bool :=
  match s with
  | [] => true
  | a :: t =>
      match t with
      | b :: _ => negb (is_high_surrogate a && is_low_surrogate b)
      | [] => true
      end && pair_free t
  end.

(** A value none of whose strings (keys included) holds such a pair,
    and whose dicts bind each key once, as every dict of Python does. *)
Fixpoint plain (v : value) : bool :=
  match v with
  | PStr s => pair_free s
  | PList l => forallb plain l
  | PDict d =>
      (fix go (d : list (pystr * value)) : bool :=
         match d with
         | [] => true
         | (k, x) :: d' =>
             pair_free k && plain x
             && match str_lookup k d' with None => true | Some _ => false end
             && go d'
         end) d
  | _ => true
  end.

Definition plain_record (r : ChatRecord) : bool :=
  plain (id r) && plain (title r) && plain (created_at r) && plain (history r).

(** A title that is one high and one low surrogate, as a request body
    in UTF-8 can carry it ([json.loads] decodes bytes with
    [surrogatepass]), and the character the pair encodes. *)
Definition surrogate_title : pystr := [55357; 56832]%N.

Definition joined_title : pystr := [128512]%N.

(** ** The histories as objects

    [get_messages] and [append_message] once more, with the lists and
    the message dicts as objects of a heap, to tell the list a caller
    is given from the list the store keeps.  The records are as the
    dataclass types them: strings, and a history that is a list of
    dicts.  [_save] reads the objects and writes the file; it changes
    no object and is left out. *)
Module Heap.

Definition loc := nat.

Inductive obj : Type :=
| OList (items : list loc)
| ODict (d : list (pystr * value)).

Record ChatRecord : Type := {
  id : pystr;
  title : pystr;
  created_at : pystr;
  history : loc;
}.

Record Store : Type := {
  objects : gmap loc obj;
  chats : list (pystr * ChatRecord);
}.

Fixpoint lookup (k : pystr) (d : list (pystr * ChatRecord)) : option ChatRecord :=
  match d with
  | [] => None
  | (k', v) :: d' => if decide (k' = k) then Some v else lookup k d'
  end.

(** A new object: no object is where it is put. *)
Definition alloc (o : obj) (s : Store) : loc * Store :=
  let l := fresh (dom (objects s)) in
  (l, {| objects := <[l := o]> (objects s); chats := chats s |}).

(** [return list(chat.history)]: a new list of the same items. *)
Definition get_messages (chat_id : pystr) (s : Store) : result loc * Store :=
  match lookup chat_id (chats s) with
  | None => (Raise (KeyError (PStr chat_id)), s)
  | Some chat =>
      match objects s !! history chat with
      | Some (OList items) => let (l, s') := alloc (OList items) s in (Ok l, s')
      | _ => (Raise TypeError, s)
      end
  end.

(** [chat.history.append({"role": role, "content": content})]: a new
    dict, and the list of the record longer by one item, in place. *)
Definition append_message (chat_id role content : pystr) (s : Store)
  : result unit * Store :=
  match lookup chat_id (chats s) with
  | None => (Raise (KeyError (PStr chat_id)), s)
  | Some chat =>
      match objects s !! history chat with
      | Some (OList items) =>
          let (m, s') := alloc (ODict [(py "role", PStr role);
                                       (py "content", PStr content)]) s in
          (Ok tt, {| objects := <[history chat := OList (items ++ [m])]> (objects s');
                     chats := chats s' |})
      | _ => (Raise AttributeError, s)
      end
  end.

Fixpoint append_all (ops : list (pystr * pystr * pystr)) (s : Store) : Store :=
  match ops with
  | [] => s
  | (c, r, t) :: ops' => append_all ops' (snd (append_message c r t s))
  end.

(** Any mutation of the list at [l] by its holder: [append], [insert],
    [pop], [remove], [clear], [sort], [reverse], item assignment and
    deletion all put some list of items in place of the old one. *)
Definition mutate_list (l : loc) (f : list loc -> list loc) (s : Store) : Store :=
  match objects s !! l with
  | Some (OList items) =>
      {| objects := <[l := OList (f items)]> (objects s); chats := chats s |}
  | _ => s
  end.

(** Item assignment in the dict at [m]. *)
Definition mutate_dict (m : loc) (k : pystr) (v : value) (s : Store) : Store :=
  match objects s !! m with
  | Some (ODict d) =>
      {| objects := <[m := ODict (str_set k v d)]> (objects s); chats := chats s |}
  | _ => s
  end.

(** What a reader of the list at [l] sees: the dicts of its items. *)
Definition read_item (s : Store) (i : loc) : value :=
  match objects s !! i with
  | Some (ODict d) => PDict d
  | _ => PNone
  end.

Definition read_list (s : Store) (l : loc) : option (list value) :=
  match objects s !! l with
  | Some (OList items) => Some (map (read_item s) items)
  | _ => None
  end.

(** The history the store holds for a chat. *)
Definition view (s : Store) (chat_id : pystr) : option (list value) :=
  match lookup chat_id (chats s) with
  | Some chat => read_list s (history chat)
  | None => None
  end.

(** Every history is a list object and every item of a list is a dict
    object. *)
Definition closed (s : Store) : Prop :=
  (forall c chat, (c, chat) ∈ chats s ->
     exists items, objects s !! history chat = Some (OList items))
  /\ (forall l items i, objects s !! l = Some (OList items) -> i ∈ items ->
        exists d, objects s !! i = Some (ODict d)).

(** The list at [l] belongs to a caller: it is no record's history. *)
Definition callers (l : loc) (s : Store) : Prop :=
  closed s
  /\ (exists items, objects s !! l = Some (OList items))
  /\ forall c chat, (c, chat) ∈ chats s -> history chat <> l.

(** A store with one chat, whose history holds one message. *)
Definition demo : Store :=
  {| objects := <[0%nat := OList [1%nat]]>
                  (<[1%nat := ODict [(py "role", PStr (py "user"));
                                     (py "content", PStr (py "hi"))]]> ∅);
     chats := [(py "c1", {| id := py "c1"; title := py "Demo";
                            created_at := py "2024-01-01T00:00:00+00:00";
                            history := 0%nat |})] |}.

End Heap.

(** ** The text of an event

    [json.dumps] with its defaults ([ensure_ascii], separators [", "]
    and [": "], no indent), as [_notify_sse] calls it, and the frames
    [_sse_generator] yields. *)

Definition hex_digit (d : N) : N :=
  (if d <? 10 then 48 + d else 87 + d)%N.

(** ['\\u{0:04x}'.format(n)] for [n] below 65536. *)
Definition u_escape (n : N) : pystr :=
  [92; 117; hex_digit ((n / 4096) mod 16); hex_digit ((n / 256) mod 16);
   hex_digit ((n / 16) mod 16); hex_digit (n mod 16)]%N.

(** The replacement of one character: a short escape for the quote, the
    backslash and five control characters, the character itself when it
    is printable ASCII, [\uXXXX] below 65536 and a surrogate pair above. *)
Definition escape_char (c : N) : pystr :=
  (if c =? 34 then [92; 34]
   else if c =? 92 then [92; 92]
   else if c =? 10 then [92; 110]
   else if c =? 13 then [92; 114]
   else if c =? 9 then [92; 116]
   else if c =? 12 then [92; 102]
   else if c =? 8 then [92; 98]
   else if (32 <=? c) && (c <=? 126) then [c]
   else if c <? 65536 then u_escape c
   else u_escape (N.lor 55296 (N.land (N.shiftr (c - 65536) 10) 1023))
        ++ u_escape (N.lor 56320 (N.land (c - 65536) 1023)))%N.

(** [json.encoder.encode_basestring_ascii] *)
Definition encode_basestring_ascii (s : pystr) : pystr :=
  [34%N] ++ concat (map escape_char s) ++ [34%N].

(** [repr] of an [int] *)
Definition int_repr (n : Z) : pystr := py (NilZero.string_of_int (Z.to_int n)).

Fixpoint dumps (v : value) : pystr :=
  match v with
  | PNone => py "null"
  | PBool b => if b then py "true" else py "false"
  | PInt n => int_repr n
  | PStr s => encode_basestring_ascii s
  | PList l =>
      py "["
      ++ (fix items (l : list value) : pystr :=
            match l with
            | [] => []
            | x :: l' =>
                match l' with
                | [] => dumps x
                | _ :: _ => dumps x ++ py ", " ++ items l'
                end
            end) l
      ++ py "]"
  | PDict d =>
      py "{"
      ++ (fix items (d : list (pystr * value)) : pystr :=
            match d with
            | [] => []
            | (k, x) :: d' =>
                match d' with
                | [] => encode_basestring_ascii k ++ py ": " ++ dumps x
                | _ :: _ =>
                    encode_basestring_ascii k ++ py ": " ++ dumps x
                    ++ py ", " ++ items d'
                end
            end) d
      ++ py "}"
  end.

(** What the generator yields: [f"data: {data}\n\n"] for an event and
    [": heartbeat\n\n"] on a timeout. *)
Definition frame_text (f : frame) : pystr :=
  match f with
  | Data d => py "data: " ++ dumps d ++ [10; 10]%N
  | Heartbeat => py ": heartbeat" ++ [10; 10]%N
  end.

(** Printable ASCII: from the space to the tilde. *)
Definition printable (c : N) : Prop := (32 <= c <= 126)%N.

(** ** Further notions *)

(** Calls of [_notify_sse], one after the other. *)
Definition publish_all (evs : list (pystr * pystr * pystr)) : M unit :=
  for_each (fun '(c, r, t) => _notify_sse c r t) evs.

(** The last of the records whose id equals [a]. *)
Definition last_bound (a : value) (rs : list ChatRecord) : option ChatRecord :=
  foldl (fun acc r => if py_eq (id r) a then Some r else acc) None rs.




(** Not empty, and no whitespace at either end. *)
Definition trimmed (s : pystr) : Prop :=
  s <> []
  /\ (forall c, head s = Some c -> isspace c = false)
  /\ (forall c, last s = Some c -> isspace c = false).

(** The rows with the timestamp [s], in order. *)
Definition stamped (s : pystr) (rows : list ChatRecord) : list ChatRecord :=
  List.filter (fun r => py_eq (created_at r) (PStr s)) rows.

(** Two records that [list_chats] shows alike. *)
Definition same_summary (a b : ChatRecord) : Prop :=
  id a = id b /\ title a = title b /\ created_at a = created_at b.

(** A file with one record whose timestamp is a number. *)
Definition snapshot_numeric_stamp : snapshot_file :=
  snapshot [PDict [(py "id", PStr (py "old")); (py "title", PStr (py "t"));
                   (py "created_at", PInt 5); (py "history", PList [])]].

(** Items of a file in which the id [a] comes twice. *)
Definition items_twice : list value :=
  [PDict [(py "id", PStr (py "a")); (py "title", PStr (py "one"));
          (py "created_at", PStr (py "2024-01-01T00:00:00+00:00"))];
   PDict [(py "id", PStr (py "b")); (py "title", PStr (py "two"));
          (py "created_at", PStr (py "2024-01-02T00:00:00+00:00"))];
   PDict [(py "id", PStr (py "a")); (py "title", PStr (py "three"));
          (py "created_at", PStr (py "2024-01-03T00:00:00+00:00"))]].

(** A draw at the very time of [first_draw]. *)
Definition tie_draw : draw :=
  {| draw_uuid := py "aaaaaaaaaaaa4aaa8aaaaaaaaaaaaaaa";
     draw_now := draw_now first_draw;
     draw_title := py "tie" |}.

(** A record without its messages. *)
Definition without_history (r : ChatRecord) : ChatRecord :=
  {| id := id r; title := title r; created_at := created_at r;
     history := PList [] |}.

(** ** Proof automation *)

(** Case analysis on the scalars that [py_eq] compares. *)
Ltac py_eq_cases :=
  cbn [py_eq as_int hashable]; try done; intros;
  repeat match goal with
         | b : bool |- _ => destruct b
         end;
  rewrite ?bool_decide_eq_true, ?Z.eqb_eq in *;
  try (congruence || lia).

(** A list of literal characters is printable. *)
Ltac literal_printable :=
  repeat (apply Forall_cons_2; [unfold printable; simpl; lia|]); apply Forall_nil_2.

(** * Properties *)

(** ** Running the monad *)

Lemma bind_Ok {A B : Type} (m : M A) (f : A -> M B) (w w' : World) (a : A) :
  m w = (Ok a, w') -> (m ≫= f) w = f a w'.
Proof. intros H. unfold mbind, M_bind. by rewrite H. Qed.

Lemma bind_Raise {A B : Type} (m : M A) (f : A -> M B) (w w' : World) (e : exn) :
  m w = (Raise e, w') -> (m ≫= f) w = (Raise e, w').
Proof. intros H. unfold mbind, M_bind. by rewrite H. Qed.

Lemma for_each_app {A : Type} (f : A -> M unit) (l1 l2 : list A) (w : World) :
  for_each f (l1 ++ l2) w = (for_each f l1 ≫= fun _ => for_each f l2) w.
Proof.
  revert w. induction l1 as [|x l1 IH]; intros w; simpl; [done|].
  unfold mbind, M_bind in *. destruct (f x w) as [[[]|e] w1]; [apply IH|done].
Qed.

(** ** Values *)

Lemma value_ind_nested (P : value -> Prop) :
  P PNone -> (forall b, P (PBool b)) -> (forall n, P (PInt n)) ->
  (forall s, P (PStr s)) ->
  (forall l, Forall P l -> P (PList l)) ->
  (forall d, Forall (fun kv => P kv.2) d -> P (PDict d)) ->
  forall v, P v.
Proof.
  intros HN HB HI HS HL HD. fix IH 1. intros [|b|n|s|l|d].
  - exact HN.
  - apply HB.
  - apply HI.
  - apply HS.
  - apply HL. revert l. fix IHl 1. intros [|x l]; constructor; [apply IH|apply IHl].
  - apply HD. revert d. fix IHd 1. intros [|[k x] d]; constructor; [apply IH|apply IHd].
Qed.

(** ** Strings *)

Lemma lstrip_nil_iff (s : pystr) : lstrip s = [] <-> forallb isspace s = true.
Proof.
  induction s as [|c s IH]; simpl; [done|].
  destruct (isspace c); simpl; [done|]. split; discriminate.
Qed.

Lemma strip_nil_iff (s : pystr) : strip s = [] <-> forallb isspace s = true.
Proof.
  unfold strip, rstrip. split.
  - intros H. apply (f_equal (@rev N)) in H. rewrite rev_involutive in H.
    simpl in H. apply lstrip_nil_iff in H. apply lstrip_nil_iff.
    destruct (lstrip s) as [|c s'] eqn:E; [done|].
    exfalso. rewrite forallb_forall in H.
    assert (Hc : isspace c = true) by (apply H, in_rev; rewrite rev_involutive; left; done).
    destruct s as [|d s0]; [done|]. simpl in E.
    destruct (isspace d) eqn:Ed.
    + clear H Ed. revert E. induction s0 as [|x s0 IH]; simpl; [done|].
      destruct (isspace x) eqn:Ex; [done|]. intros [= -> _]. congruence.
    + injection E as -> _. congruence.
  - intros H. apply lstrip_nil_iff in H. by rewrite H.
Qed.

Lemma py_eq_str_l (k : value) (s : pystr) : py_eq k (PStr s) = true <-> k = PStr s.
Proof.
  destruct k as [|b|n|t|l|d]; simpl; try (split; discriminate).
  rewrite bool_decide_eq_true. split; congruence.
Qed.

Lemma py_eq_str (s t : pystr) : py_eq (PStr s) (PStr t) = bool_decide (s = t).
Proof. done. Qed.

(** ** C1: a message for an unknown chat *)

Lemma append_message_unknown (chat_id role content : pystr) (w : World) :
  dict_get (PStr chat_id) (chats w) = None ->
  append_message chat_id role content w = (Raise (KeyError (PStr chat_id)), w).
Proof. intros H. unfold append_message. by rewrite H. Qed.

(** The sibling route answers an unknown id with 404. *)
Lemma get_messages_unknown_chat (chat_id : pystr) (w : World) :
  dict_get (PStr chat_id) (chats w) = None ->
  Routes.get_messages chat_id w = (Ok (Reply 404 (error_body "chat not found")), w).
Proof.
  intros H. unfold Routes.get_messages, try_except_KeyError, try_except.
  unfold mbind, M_bind, get_messages. by rewrite H.
Qed.

(** C1.  Submitting a message with non-blank content to a chat id that
    the store does not hold answers 500 with the [KeyError] (where the
    specification asks for a 404), after logging the exception; the dict of
    chats, the snapshot file, the subscriber registry and every queue
    are left as they were. *)
Theorem post_message_unknown_chat
    (hm : pystr -> pystr -> pystr -> M unit)
    (chat_id : pystr) (data : value) (c : pystr) (w : World) :
  get_method data (py "content") (PStr []) = Ok (PStr c) ->
  strip c <> [] ->
  dict_get (PStr chat_id) (chats w) = None ->
  Routes.post_message hm chat_id data w
  = (Ok (ReplyError 500 (KeyError (PStr chat_id))),
     add_trace (ELogException (KeyError (PStr chat_id))) w).
Proof.
  intros Hget Hc Hnone.
  unfold Routes.post_message, mbind, M_bind, lift. rewrite Hget. simpl.
  case_decide; [done|].
  unfold try_except. by rewrite append_message_unknown.
Qed.

Lemma post_message_unknown_chat_witness :
  Routes.post_message (fun _ _ _ => mret tt) (py "nonexistent")
    (PDict [(py "content", PStr (py "hi"))]) (ChatStore_init NoFile)
  = (Ok (ReplyError 500 (KeyError (PStr (py "nonexistent")))),
     add_trace (ELogException (KeyError (PStr (py "nonexistent"))))
       (ChatStore_init NoFile)).
Proof.
  apply (post_message_unknown_chat _ _ _ (py "hi"));
    [reflexivity | discriminate | reflexivity].
Defined.

(** Blank content is turned down before the chat is looked up. *)
Lemma post_message_blank
    (hm : pystr -> pystr -> pystr -> M unit)
    (chat_id : pystr) (data : value) (c : pystr) (w : World) :
  get_method data (py "content") (PStr []) = Ok (PStr c) ->
  forallb isspace c = true ->
  Routes.post_message hm chat_id data w
  = (Ok (Reply 400 (error_body "content is required")), w).
Proof.
  intros Hget Hc. apply strip_nil_iff in Hc.
  unfold Routes.post_message, mbind, M_bind, lift. rewrite Hget. simpl.
  by rewrite decide_True.
Qed.

(** ** C4: leaving the subscriber registry *)

Lemma list_remove_Some (x : nat) (l : list nat) :
  x ∈ l ->
  exists l1 l2, l = l1 ++ x :: l2 /\ (x ∉ l1) /\ list_remove x l = Some (l1 ++ l2).
Proof.
  induction l as [|y l IH]; intros Hin; [by apply elem_of_nil in Hin|].
  simpl. destruct (decide (y = x)) as [->|Hne].
  - exists [], l. split_and!; [done| apply not_elem_of_nil |done].
  - apply elem_of_cons in Hin as [->|Hin]; [done|].
    destruct (IH Hin) as (l1 & l2 & -> & Hl1 & ->).
    exists (y :: l1), l2. split_and!; [done| |done].
    rewrite not_elem_of_cons. split; [congruence|done].
Qed.

Lemma list_remove_None (x : nat) (l : list nat) :
  x ∉ l -> list_remove x l = None.
Proof.
  induction l as [|y l IH]; intros Hin; [done|].
  apply not_elem_of_cons in Hin as [Hne Hin]. simpl.
  destruct (decide (y = x)); [congruence|]. by rewrite IH.
Qed.

Lemma unsubscribe_in (q : nat) (w : World) :
  q ∈ sse_queues w ->
  exists l1 l2,
    sse_queues w = l1 ++ q :: l2 /\ (q ∉ l1) /\
    unsubscribe q w = (Ok tt, set_sse_queues (l1 ++ l2) w).
Proof.
  intros Hin. destruct (list_remove_Some q _ Hin) as (l1 & l2 & E & Hl1 & Hr).
  exists l1, l2. split_and!; [done|done|]. unfold unsubscribe. by rewrite Hr.
Qed.

(** What [list.remove] does, apart from any run: a registered queue
    goes (its first occurrence) and the others keep their order; for a
    queue that is not registered it raises [ValueError] and changes
    nothing.  The [finally] has no guard of its own. *)
Lemma unsubscribe_registered_or_raises (q : nat) (w : World) :
  (q ∈ sse_queues w ->
   exists l1 l2,
     sse_queues w = l1 ++ q :: l2 /\ (q ∉ l1) /\
     unsubscribe q w = (Ok tt, set_sse_queues (l1 ++ l2) w) /\
     (NoDup (sse_queues w) -> q ∉ l1 ++ l2))
  /\ (q ∉ sse_queues w -> unsubscribe q w = (Raise ValueError, w)).
Proof.
  split.
  - intros Hin. destruct (list_remove_Some q _ Hin) as (l1 & l2 & E & Hl1 & Hr).
    exists l1, l2. split_and!; [done|done| |].
    + unfold unsubscribe. by rewrite Hr.
    + rewrite E. intros Hnd Hq. apply NoDup_app in Hnd as (_ & Hd & Hnd2).
      apply NoDup_cons in Hnd2 as [Hq2 _].
      apply elem_of_app in Hq as [?|?]; [done|done].
  - intros Hnot. unfold unsubscribe. by rewrite list_remove_None.
Qed.

Lemma frames_registry (q n : nat) (w : World) :
  exists fs w', frames q n w = (Ok fs, w') /\ sse_queues w' = sse_queues w.
Proof.
  revert w. induction n as [|n IH]; intros w; simpl; [by eexists _, _|].
  unfold mbind, M_bind, next_frame.
  destruct (queues w !! q) as [[|d rest]|].
  - destruct (IH w) as (fs & w' & -> & E). by eexists _, _.
  - destruct (IH (set_queues (<[q:=rest]> (queues w)) w)) as (fs & w' & -> & E).
    by eexists _, _.
  - destruct (IH w) as (fs & w' & -> & E). by eexists _, _.
Qed.

(** In the generator the removal always finds its queue: the stream
    ends normally and leaves the registry as it found it. *)
Lemma _sse_generator_cleans_up (n : nat) (w : World) :
  (forall q, q ∈ sse_queues w -> q ∈ dom (queues w)) ->
  exists fs w', _sse_generator n w = (Ok fs, w') /\ sse_queues w' = sse_queues w.
Proof.
  intros Hreg. unfold _sse_generator, mbind, M_bind, subscribe, try_finally.
  set (q := fresh (dom (queues w))).
  assert (Hq : q ∉ sse_queues w).
  { intros Hin. apply (is_fresh (dom (queues w))). by apply Hreg. }
  destruct (frames_registry q n
    (set_sse_queues (sse_queues w ++ [q]) (set_queues (<[q:=[]]> (queues w)) w)))
    as (fs & w' & -> & E).
  simpl in E. unfold unsubscribe. rewrite E.
  assert (Hr : list_remove q (sse_queues w ++ [q]) = Some (sse_queues w)).
  { clear -Hq. induction (sse_queues w) as [|y l IH]; simpl.
    - by rewrite decide_True.
    - apply not_elem_of_cons in Hq as [Hne Hq].
      rewrite decide_False by congruence. by rewrite IH. }
  rewrite Hr. by eexists _, _.
Qed.

(** *** The registry under the calls of other threads *)

Lemma for_each_put_registry (data : value) (qs : list nat) (w : World) :
  sse_queues (snd (for_each (put data) qs w)) = sse_queues w
  /\ dom (queues w) ⊆ dom (queues (snd (for_each (put data) qs w))).
Proof.
  revert w. induction qs as [|q qs IH]; intros w; simpl; [done|].
  unfold mbind, M_bind. simpl.
  destruct (IH (snd (put data q w))) as [Hr Hd]. simpl in *.
  split; [exact Hr|]. etrans; [|exact Hd]. simpl. rewrite dom_insert.
  apply union_subseteq_r.
Qed.

Lemma _save_registry (w : World) :
  sse_queues (snd (_save w)) = sse_queues w /\ queues (snd (_save w)) = queues w.
Proof.
  unfold _save, mbind, M_bind, lift, modify, emit.
  by destruct (sorted_desc (values w)).
Qed.

Lemma create_chat_registry (uuid now t : pystr) (w : World) :
  sse_queues (snd (create_chat uuid now t w)) = sse_queues w
  /\ queues (snd (create_chat uuid now t w)) = queues w.
Proof.
  unfold create_chat, mbind, M_bind, chats_setitem, modify. simpl.
  match goal with |- context [_save ?w1] =>
    destruct (_save_registry w1) as [H1 H2]; destruct (_save w1) as [[[]|e] w2] end;
    simpl in *; by rewrite H1, H2.
Qed.

Lemma append_message_registry (c r t : pystr) (w : World) :
  sse_queues (snd (append_message c r t w)) = sse_queues w
  /\ queues (snd (append_message c r t w)) = queues w.
Proof.
  unfold append_message. destruct (dict_get (PStr c) (chats w)) as [chat|]; [|done].
  unfold history_append, mbind, M_bind, modify.
  destruct (history chat); try done. simpl.
  match goal with |- context [_save ?w1] =>
    destruct (_save_registry w1) as [H1 H2]; destruct (_save w1) as [[[]|e] w2] end;
    simpl in *; by rewrite H1, H2.
Qed.

Lemma send_registry (c t : pystr) (w : World) :
  sse_queues (snd (send c t w)) = sse_queues w
  /\ dom (queues w) ⊆ dom (queues (snd (send c t w))).
Proof.
  unfold send, try_except_KeyError, try_except, mbind, M_bind.
  destruct (append_message_registry c (py "assistant") t w) as [H1 H2].
  destruct (append_message c (py "assistant") t w) as [[[]|e] w1]; simpl in *.
  - unfold _notify_sse.
    destruct (for_each_put_registry (event c (py "assistant") t) (sse_queues w1) w1)
      as [H3 H4].
    destruct (for_each _ _ w1) as [[[]|e] w2]; simpl in *.
    + rewrite H3, H1. by rewrite <- H2.
    + destruct e; simpl; rewrite ?H3, ?H1; by rewrite <- H2.
  - destruct e; simpl; by rewrite H1, H2.
Qed.

Lemma list_remove_sublist (x : nat) (l l' : list nat) :
  list_remove x l = Some l' ->
  l' `sublist_of` l /\ forall y, y <> x -> y ∈ l -> y ∈ l'.
Proof.
  revert l'. induction l as [|y l IH]; intros l'; simpl; [done|].
  destruct (decide (y = x)) as [->|Hne].
  - intros [= <-]. split; [by apply sublist_cons|].
    intros z Hz Hin. apply elem_of_cons in Hin as [->|]; done.
  - destruct (list_remove x l) as [l0|]; simpl; [|done]. intros [= <-].
    destruct (IH l0 eq_refl) as [Hs Hk]. split; [by apply sublist_skip|].
    intros z Hz Hin. apply elem_of_cons in Hin as [->|Hin];
      apply elem_of_cons; [by left|right; by apply Hk].
Qed.

(** Every call keeps the registry in order, and no call but the removal
    of [q] itself takes [q] out of it. *)
Lemma run_op_registry (o : channel_op) (q : nat) (w : World) :
  registry_ok w ->
  registry_ok (run_op o w)
  /\ (o <> OpUnsubscribe q -> q ∈ sse_queues w -> q ∈ sse_queues (run_op o w)).
Proof.
  intros [Hnd Hdom]. destruct o as [|q'|q'|c t|d|c r t]; simpl.
  - split; [split|]; simpl.
    + apply NoDup_app. split_and!; [done| |apply NoDup_singleton].
      intros x Hx Hx'. apply list_elem_of_singleton in Hx' as ->.
      by apply (is_fresh (dom (queues w))), Hdom.
    + intros x Hx. rewrite dom_insert. apply elem_of_app in Hx as [Hx|Hx].
      * apply elem_of_union. right. by apply Hdom.
      * apply list_elem_of_singleton in Hx as ->. set_solver.
    + intros _ Hq. apply elem_of_app. by left.
  - unfold next_frame. destruct (queues w !! q') as [[|head rest]|] eqn:E; simpl;
      (split; [split|]; simpl; try done).
    intros x Hx. rewrite dom_insert. apply elem_of_union. right. by apply Hdom.
  - unfold unsubscribe. destruct (list_remove q' (sse_queues w)) as [l|] eqn:E; simpl.
    + destruct (list_remove_sublist _ _ _ E) as [Hs Hk]. split; [split|]; simpl.
      * by apply (sublist_NoDup _ _ Hnd).
      * intros x Hx. apply Hdom. by apply (elem_of_sublist _ _ _ Hx Hs).
      * intros Hne Hq. apply Hk; [|done]. congruence.
    + split; [split|]; done.
  - destruct (send_registry c t w) as [H1 H2]. split; [split|]; rewrite ?H1; try done.
    intros x Hx. apply H2. by apply Hdom.
  - destruct (create_chat_registry (draw_uuid d) (draw_now d) (draw_title d) w)
      as [H1 H2]. split; [split|]; rewrite ?H1, ?H2; done.
  - destruct (append_message_registry c r t w) as [H1 H2].
    split; [split|]; rewrite ?H1, ?H2; done.
Qed.

(** *** The registry in every run *)





(** X1.  A stream that has registered its queue finds it at its end,
    whatever the other threads have done meanwhile (none of them removes
    a queue that is not its own): the removal returns normally and the
    queue is gone from the registry. *)
Lemma session_cleanup_finds_its_queue (ops : list channel_op) (w : World) :
  registry_ok w ->
  let q := fresh (dom (queues w)) in
  Forall (fun o => o <> OpUnsubscribe q) ops ->
  exists w',
    unsubscribe q (run_ops ops (snd (subscribe w))) = (Ok tt, w')
    /\ (q ∉ sse_queues w') /\ registry_ok w'.
Proof.
  intros Hw q Hops.
  assert (H : registry_ok (run_ops ops (snd (subscribe w)))
              /\ q ∈ sse_queues (run_ops ops (snd (subscribe w)))).
  { destruct (run_op_registry OpSubscribe q w Hw) as [H1 _].
    change (registry_ok (snd (subscribe w))) in H1.
    assert (H2 : q ∈ sse_queues (snd (subscribe w))).
    { simpl. apply elem_of_app. right. by apply list_elem_of_singleton. }
    revert H1 H2. generalize (snd (subscribe w)). clear Hw.
    induction Hops as [|o ops Ho Hops IH]; intros w1 H1 H2; [by split|].
    simpl. destruct (run_op_registry o q w1 H1) as [H3 H4]. apply IH; auto. }
  destruct H as [[Hnd Hdom] Hq].
  destruct (unsubscribe_in _ _ Hq) as (l1 & l2 & E & Hl1 & Hun).
  eexists. split; [exact Hun|]. rewrite E in Hnd.
  apply NoDup_app in Hnd as (Hn1 & Hd & Hn2). apply NoDup_cons in Hn2 as [Hq2 Hn2].
  unfold registry_ok. cbn [sse_queues queues set_sse_queues]. split_and!.
  - intros Hin. apply elem_of_app in Hin as [?|?]; done.
  - apply NoDup_app. split_and!; [done| |done].
    intros x Hx Hx'. apply (Hd x Hx). apply elem_of_cons. by right.
  - intros x Hx. apply Hdom. rewrite E.
    apply elem_of_app in Hx as [?|?]; apply elem_of_app; [by left|right].
    apply elem_of_cons. by right.
Qed.

Lemma session_cleanup_finds_its_queue_witness :
  let ops := [OpSubscribe; OpSend (py "nobody") (py "hello"); OpNextFrame 0;
              OpUnsubscribe 1] in
  exists w',
    unsubscribe 0 (run_ops ops (snd (subscribe (boot NoFile)))) = (Ok tt, w')
    /\ (0%nat ∉ sse_queues w') /\ registry_ok w'.
Proof.
  apply (session_cleanup_finds_its_queue
           [OpSubscribe; OpSend (py "nobody") (py "hello"); OpNextFrame 0;
            OpUnsubscribe 1] (boot NoFile)).
  - split; [apply NoDup_nil_2|]. intros q Hq. by apply elem_of_nil in Hq.
  - repeat (apply Forall_cons; split; [discriminate|]). apply Forall_nil_2.
Defined.

(** ** C3: loading a file that is not a snapshot *)

Lemma load_item_Some (item : value) (c : ChatRecord) (w : World) :
  record_of item = Some c ->
  load_item item w = (Ok tt, set_chats (dict_set (id c) c (chats w)) w).
Proof.
  destruct item as [| | | | |d]; try discriminate. simpl.
  unfold load_item, mbind, M_bind, lift, getitem, get_method, chats_setitem.
  destruct (str_lookup (py "id") d) as [i|]; [|discriminate].
  destruct (str_lookup (py "title") d) as [t|]; [|discriminate].
  destruct (str_lookup (py "created_at") d) as [s|]; [|discriminate].
  destruct (hashable i) eqn:Hi; [|discriminate].
  by intros [= <-].
Qed.

Lemma load_item_None (item : value) (w : World) :
  record_of item = None -> exists e, load_item item w = (Raise e, w).
Proof.
  unfold load_item, mbind, M_bind, lift, getitem, get_method, chats_setitem.
  destruct item as [| | | | |d]; simpl; try by eexists.
  destruct (str_lookup (py "id") d) as [i|]; [|by eexists].
  destruct (str_lookup (py "title") d) as [t|]; [|by eexists].
  destruct (str_lookup (py "created_at") d) as [s|]; [|by eexists].
  destruct (hashable i) eqn:Hi; [discriminate|]. by eexists.
Qed.

Lemma for_each_load_item (items : list value) (w : World) :
  exists r,
    for_each load_item items w
    = (r, set_chats (insert_all (loaded_prefix items) (chats w)) w)
    /\ (r = Ok tt <-> Forall (fun x => is_Some (record_of x)) items).
Proof.
  revert w. induction items as [|x items IH]; intros w.
  - exists (Ok tt). simpl. by destruct w.
  - simpl. unfold mbind, M_bind. destruct (record_of x) as [c|] eqn:Hx.
    + rewrite (load_item_Some _ _ _ Hx).
      destruct (IH (set_chats (dict_set (id c) c (chats w)) w)) as (r & -> & Hr).
      exists r. split; [done|]. rewrite Hr, Forall_cons. rewrite Hx.
      split; [by eauto | by intros []].
    + destruct (load_item_None _ w Hx) as [e ->].
      exists (Raise e). split; [by destruct w|]. rewrite Forall_cons, Hx.
      split; [done | by intros [[? [=]] _]].
Qed.

Lemma _load_returns (w : World) : fst (_load w) = Ok tt.
Proof.
  unfold _load. destruct (disk w); [done| |];
    unfold try_except;
    match goal with |- context [?b w] =>
      match b with (_ ≫= _) => destruct (b w) as [[[]|e] w'] end end; done.
Qed.

(** C3 (as the code has it).  On a file that is there and is not a
    snapshot, [_load] returns normally; the store holds the records of
    the items that come before the first item no record can be built
    from (none when the text does not parse, the top-level value is not
    an object or its ["chats"] cannot be iterated); the file is left as
    it is; and one error is logged exactly when something was raised,
    that is, unless every item visited stands for a record. *)
Theorem load_malformed (f : snapshot_file) :
  malformed f ->
  fst (_load (boot f)) = Ok tt /\
  chats (ChatStore_init f)
  = insert_all (loaded_prefix (default [] (items_of f))) [] /\
  disk (ChatStore_init f) = f /\
  (trace (ChatStore_init f) = [] \/
   exists e, trace (ChatStore_init f) = [ELogError e]) /\
  (trace (ChatStore_init f) = [] <->
   exists items, items_of f = Some items /\
                 Forall (fun x => is_Some (record_of x)) items).
Proof.
  intros Hmal. split; [apply _load_returns|].
  unfold ChatStore_init, _load. destruct f as [| |raw]; [done| |].
  - simpl. split_and!; [done|done|by eauto|]. split; [done|by intros (? & [=] & _)].
  - simpl. unfold try_except, mbind, M_bind, lift, read_json. simpl.
    destruct (loads_dumps raw) as [| | | | |d]; simpl;
      try (split_and!; [done|done|by eauto|]; split; [done|by intros (? & [=] & _)]).
    destruct (iter (default (PList []) (str_lookup (py "chats") d))) as [items|e]; simpl.
    + destruct (for_each_load_item items (boot (Json raw))) as (r & -> & Hr).
      destruct r as [[]|e]; simpl.
      * split_and!; [done|done|by left|]. split; [|done].
        intros _. exists items. split; [done|]. by apply Hr.
      * split_and!; [done|done|by eauto|]. split; [done|].
        intros (? & [= <-] & Hall). by apply Hr in Hall.
    + split_and!; [done|done|by eauto|]. split; [done|by intros (? & [=] & _)].
Qed.

Lemma load_malformed_witness :
  malformed snapshot_missing_title /\
  chats (ChatStore_init snapshot_missing_title)
  = insert_all (loaded_prefix (default [] (items_of snapshot_missing_title))) [].
Proof.
  split; [reflexivity|].
  exact (proj1 (proj2 (load_malformed snapshot_missing_title eq_refl))).
Defined.

(** The store need not start empty: the second item of the file lacks
    its title, the failure is logged, and the first chat is in the store
    all the same. *)
Lemma load_keeps_earlier_records :
  malformed snapshot_missing_title /\
  trace (ChatStore_init snapshot_missing_title)
  = [ELogError (KeyError (PStr (py "title")))] /\
  values (ChatStore_init snapshot_missing_title)
  = [{| id := PStr (py "a"); title := PStr (py "t");
        created_at := PStr (py "2024-01-01T00:00:00+00:00");
        history := PList [] |}].
Proof. split_and!; reflexivity. Qed.

(** Nor is every such file reported: an id that is a number is stored
    as it stands, and nothing is logged. *)
Lemma load_accepts_untyped_fields :
  let f := Json (PDict [(py "chats",
             PList [PDict [(py "id", PInt 5); (py "title", PNone);
                           (py "created_at", PStr (py "x"))]])]) in
  malformed f /\
  trace (ChatStore_init f) = [] /\
  values (ChatStore_init f)
  = [{| id := PInt 5; title := PNone; created_at := PStr (py "x");
        history := PList [] |}].
Proof. split_and!; reflexivity. Qed.

(** ** Sorting by [created_at] *)

Lemma str_lt_asym (s t : pystr) : str_lt s t = true -> str_lt t s = false.
Proof.
  revert t. induction s as [|a s IH]; intros [|b t]; simpl; try done.
  destruct (N.ltb_spec a b), (N.eqb_spec a b), (N.ltb_spec b a), (N.eqb_spec b a);
    try done; try lia. apply IH.
Qed.

Lemma str_ge_trans (x y z : pystr) :
  str_lt x y = false -> str_lt y z = false -> str_lt x z = false.
Proof.
  revert y z. induction x as [|a x IH]; intros [|b y] [|c z]; simpl; try done.
  destruct (N.ltb_spec a b), (N.eqb_spec a b), (N.ltb_spec b c), (N.eqb_spec b c),
    (N.ltb_spec a c), (N.eqb_spec a c); try done; try lia. apply IH.
Qed.

Lemma insert_desc_perm (x : ChatRecord) (l r : list ChatRecord) :
  insert_desc x l = Ok r -> r ≡ₚ x :: l.
Proof.
  revert r. induction l as [|y l IH]; intros r; simpl.
  - by intros [= <-].
  - destruct (py_lt (created_at x) (created_at y)) as [[]|]; simpl; try done.
    + destruct (insert_desc x l) as [r'|]; simpl; [|done].
      intros [= <-]. rewrite (IH r' eq_refl). apply Permutation_swap.
    + by intros [= <-].
Qed.

Lemma sorted_desc_perm (l r : list ChatRecord) :
  sorted_desc l = Ok r -> r ≡ₚ l.
Proof.
  revert r. induction l as [|x l IH]; intros r; simpl.
  - by intros [= <-].
  - destruct (sorted_desc l) as [s|]; simpl; [|done].
    intros H. rewrite (insert_desc_perm _ _ _ H). by rewrite (IH s).
Qed.

Lemma is_str_inv (v : value) : is_str v = true -> exists s, v = PStr s.
Proof. destruct v; try done. by eexists. Qed.

Lemma insert_desc_str (x : ChatRecord) (l : list ChatRecord) :
  is_str (created_at x) = true ->
  Forall (fun r => is_str (created_at r) = true) l ->
  newest_first l ->
  exists r, insert_desc x l = Ok r /\ newest_first r.
Proof.
  unfold newest_first. intros Hx Hl Hs. induction l as [|y l IH]; simpl.
  - eexists. split; [done|]. repeat constructor.
  - apply Forall_cons in Hl as [Hy Hl]. apply StronglySorted_inv in Hs as [Hs Hy'].
    destruct (IH Hl Hs) as (r & Hr & Hsr).
    destruct (is_str_inv _ Hx) as [sx Ex]. destruct (is_str_inv _ Hy) as [sy Ey].
    rewrite Ex, Ey. simpl. destruct (str_lt sx sy) eqn:Hlt; simpl.
    + rewrite Hr. simpl. eexists. split; [done|]. apply SSorted_cons; [done|].
      rewrite (insert_desc_perm _ _ _ Hr). apply Forall_cons. split; [|done].
      rewrite Ex, Ey. simpl. by rewrite (str_lt_asym _ _ Hlt).
    + eexists. split; [done|]. apply SSorted_cons.
      * by apply SSorted_cons.
      * apply Forall_cons. split; [by rewrite Ex, Ey; simpl; rewrite Hlt|].
        rewrite Forall_forall in Hy', Hl |- *. intros z Hz.
        specialize (Hy' z Hz). specialize (Hl z Hz).
        destruct (is_str_inv _ Hl) as [sz Ez]. rewrite Ey, Ez in Hy'.
        rewrite Ex, Ez. simpl in *. injection Hy' as Hy'.
        by rewrite (str_ge_trans _ _ _ Hlt Hy').
Qed.

Lemma sorted_desc_str (l : list ChatRecord) :
  Forall (fun r => is_str (created_at r) = true) l ->
  exists r, sorted_desc l = Ok r /\ r ≡ₚ l /\ newest_first r.
Proof.
  induction l as [|x l IH]; intros Hl; simpl.
  - eexists. split_and!; [done|done|constructor].
  - apply Forall_cons in Hl as [Hx Hl]. destruct (IH Hl) as (s & -> & Hp & Hs).
    simpl. destruct (insert_desc_str x s Hx) as (r & Hr & Hsr); [by rewrite Hp|done|].
    exists r. split_and!; [done| |done].
    by rewrite (insert_desc_perm _ _ _ Hr), Hp.
Qed.

(** ** The dict of chats *)

Lemma dict_set_values {V : Type} (P : V -> Prop) (k : value) (v : V)
    (d : list (value * V)) :
  Forall P (map snd d) -> P v -> Forall P (map snd (dict_set k v d)).
Proof.
  intros Hd Hv. induction d as [|[k' v'] d IH]; simpl in *.
  - by repeat constructor.
  - apply Forall_cons in Hd as [Hv' Hd].
    destruct (py_eq k' k); simpl; apply Forall_cons; auto.
Qed.

Lemma dict_get_elem {V : Type} (k : value) (v : V) (d : list (value * V)) :
  dict_get k d = Some v -> exists k', (k', v) ∈ d /\ py_eq k' k = true.
Proof.
  induction d as [|[k' v'] d IH]; simpl; [done|].
  destruct (py_eq k' k) eqn:E.
  - intros [= ->]. exists k'. split; [apply elem_of_cons; by left|done].
  - intros H. destruct (IH H) as (k'' & Hin & Hk). exists k''.
    split; [apply elem_of_cons; by right|done].
Qed.

Lemma dict_get_set_str {V : Type} (a b : pystr) (v : V) (d : list (value * V)) :
  dict_get (PStr a) (dict_set (PStr b) v d)
  = if decide (a = b) then Some v else dict_get (PStr a) d.
Proof.
  induction d as [|[k' v'] d IH]; simpl.
  - rewrite bool_decide_decide. destruct (decide (b = a)), (decide (a = b)); congruence.
  - destruct (py_eq k' (PStr b)) eqn:Eb; simpl.
    + apply py_eq_str_l in Eb as ->. rewrite !py_eq_str, !bool_decide_decide.
      destruct (decide (b = a)), (decide (a = b)); congruence.
    + destruct (py_eq k' (PStr a)) eqn:Ea.
      * apply py_eq_str_l in Ea as ->. rewrite py_eq_str in Eb.
        apply bool_decide_eq_false in Eb. by rewrite decide_False.
      * apply IH.
Qed.

Lemma dict_set_fresh {V : Type} (k : value) (v : V) (d : list (value * V)) :
  dict_get k d = None -> dict_set k v d = d ++ [(k, v)].
Proof.
  induction d as [|[k' v'] d IH]; simpl; [done|].
  destruct (py_eq k' k); [done|]. intros H. by rewrite IH.
Qed.

(** ** What [create_chat] and [list_chats] do on a typed store *)

Lemma create_chat_str (d : draw) (w : World) :
  stamps_are_str w ->
  exists rows,
    create_chat (draw_uuid d) (draw_now d) (draw_title d) w
    = (Ok (summary (new_record d)), created d rows w)
    /\ rows ≡ₚ values (created d rows w)
    /\ newest_first rows
    /\ stamps_are_str (created d rows w).
Proof.
  intros Hw.
  assert (Hw' : Forall (fun r => is_str (created_at r) = true)
                  (map snd (dict_set (PStr (drawn_id d)) (new_record d) (chats w)))).
  { by apply dict_set_values. }
  destruct (sorted_desc_str _ Hw') as (rows & Hrows & Hperm & Hsorted).
  exists rows. split_and!; [|done|done|done].
  unfold create_chat, mbind, M_bind, chats_setitem, _save, lift, modify, emit.
  simpl. unfold values. simpl. fold (drawn_id d). fold (new_record d).
  by rewrite Hrows.
Qed.

Lemma list_chats_str (w : World) :
  stamps_are_str w ->
  exists rows,
    list_chats w = (Ok (PList (map summary rows)), w)
    /\ rows ≡ₚ values w /\ newest_first rows.
Proof.
  intros Hw. destruct (sorted_desc_str _ Hw) as (rows & Hrows & Hperm & Hsorted).
  exists rows. split_and!; [|done|done].
  unfold list_chats, mbind, M_bind, lift. by rewrite Hrows.
Qed.

Lemma created_holds_record (d : draw) (rows : list ChatRecord) (w : World) :
  dict_get (PStr (drawn_id d)) (chats (created d rows w)) = Some (new_record d).
Proof. simpl. rewrite dict_get_set_str. by rewrite decide_True. Qed.

Lemma dict_get_values (k : value) (r : ChatRecord) (w : World) :
  dict_get k (chats w) = Some r -> r ∈ values w.
Proof.
  intros H. destruct (dict_get_elem _ _ _ H) as (k' & Hin & _).
  unfold values. apply list_elem_of_fmap. by exists (k', r).
Qed.

Lemma create_all_str (ds : list draw) (w : World) :
  stamps_are_str w ->
  exists w',
    create_all ds w = (Ok (map (fun d => summary (new_record d)) ds), w')
    /\ stamps_are_str w'
    /\ (ds = [] -> w' = w)
    /\ (forall d, last ds = Some d -> new_record d ∈ values w').
Proof.
  revert w. induction ds as [|d ds IH]; intros w Hw; simpl.
  - exists w. by split_and!.
  - destruct (create_chat_str d w Hw) as (rows & Hc & _ & _ & Hw1).
    destruct (IH _ Hw1) as (w' & Hall & Hw' & Hnil & Hlast).
    exists w'. unfold mbind, M_bind. rewrite Hc, Hall.
    split_and!; [done|done|done|].
    intros d'. destruct ds as [|d2 ds]; simpl.
    + intros [= <-]. rewrite (Hnil eq_refl).
      apply (dict_get_values (PStr (drawn_id d))), created_holds_record.
    + apply Hlast.
Qed.

(** ** C8: the list of chats *)

(** C8.  On a store whose records carry string timestamps (the
    dataclass declares [created_at: str], and [create_chat] writes one),
    after any number of calls of [create_chat] (none included),
    [list_chats] returns one [{"id", "title", "created_at"}] per stored
    record, with the values of that record, no row older than a row
    before it; each call of [create_chat] returns the id, title and
    timestamp of its record, and the record of the last call is one of
    the rows. *)
Theorem list_chats_newest_first (w : World) (ds : list draw) :
  stamps_are_str w ->
  exists w' rows,
    create_all ds w
    = (Ok (map (fun d => PDict [(py "id", PStr (firstn 12 (draw_uuid d)));
                                (py "title", PStr (draw_title d));
                                (py "created_at", PStr (draw_now d))]) ds), w') /\
    (ds = [] -> w' = w) /\
    list_chats w'
    = (Ok (PList (map (fun r => PDict [(py "id", id r); (py "title", title r);
                                       (py "created_at", created_at r)]) rows)),
       w') /\
    rows ≡ₚ values w' /\
    newest_first rows /\
    (forall d, last ds = Some d ->
       {| id := PStr (firstn 12 (draw_uuid d)); title := PStr (draw_title d);
          created_at := PStr (draw_now d); history := PList [] |} ∈ rows).
Proof.
  intros Hw. destruct (create_all_str ds w Hw) as (w' & Hall & Hw' & Hnil & Hlast).
  destruct (list_chats_str w' Hw') as (rows & Hl & Hperm & Hsorted).
  exists w', rows. split_and!; try done.
  intros d Hd. rewrite Hperm. by apply Hlast.
Qed.

Lemma list_chats_newest_first_witness :
  stamps_are_str (boot NoFile) /\
  exists w' rows,
    create_all [first_draw; third_draw] (boot NoFile)
    = (Ok (map (fun d => PDict [(py "id", PStr (firstn 12 (draw_uuid d)));
                                (py "title", PStr (draw_title d));
                                (py "created_at", PStr (draw_now d))])
             [first_draw; third_draw]), w') /\
    ([first_draw; third_draw] = [] -> w' = boot NoFile) /\
    list_chats w'
    = (Ok (PList (map (fun r => PDict [(py "id", id r); (py "title", title r);
                                       (py "created_at", created_at r)]) rows)),
       w') /\
    rows ≡ₚ values w' /\
    newest_first rows /\
    (forall d, last [first_draw; third_draw] = Some d ->
       {| id := PStr (firstn 12 (draw_uuid d)); title := PStr (draw_title d);
          created_at := PStr (draw_now d); history := PList [] |} ∈ rows).
Proof.
  split; [apply Forall_nil_2|].
  apply (list_chats_newest_first (boot NoFile) [first_draw; third_draw]).
  apply Forall_nil_2.
Defined.

(** The two chats of the witness, as [list_chats] returns them: the
    later one first. *)
Example list_chats_two_chats :
  fst (list_chats (snd (create_all [first_draw; third_draw] (boot NoFile))))
  = Ok (PList [PDict [(py "id", PStr (py "fedcba987654"));
                      (py "title", PStr (py "third"));
                      (py "created_at", PStr (py "2024-01-01T00:00:02+00:00"))];
               PDict [(py "id", PStr (py "0123456789ab"));
                      (py "title", PStr (py "first"));
                      (py "created_at", PStr (py "2024-01-01T00:00:00+00:00"))]]).
Proof. reflexivity. Qed.

(** ** C7: the ids of new chats *)

Lemma create_all_fresh (ds : list draw) (w : World) :
  stamps_are_str w ->
  NoDup (map drawn_id ds) ->
  (forall d, d ∈ ds -> dict_get (PStr (drawn_id d)) (chats w) = None) ->
  exists w',
    create_all ds w = (Ok (map (fun d => summary (new_record d)) ds), w') /\
    chats w' = chats w ++ map (fun d => (PStr (drawn_id d), new_record d)) ds.
Proof.
  revert w. induction ds as [|d ds IH]; intros w Hw Hnd Hfresh; simpl.
  - exists w. by rewrite app_nil_r.
  - apply NoDup_cons in Hnd as [Hd Hnd].
    destruct (create_chat_str d w Hw) as (rows & Hc & _ & _ & Hw1).
    destruct (IH (created d rows w) Hw1 Hnd) as (w' & Hall & Hchats).
    { intros d' Hd'. simpl. rewrite dict_get_set_str.
      rewrite decide_False.
      - apply Hfresh, elem_of_cons. by right.
      - intros E. apply Hd. rewrite <- E. apply list_elem_of_fmap. by exists d'. }
    exists w'. unfold mbind, M_bind. rewrite Hc, Hall. split; [done|].
    rewrite Hchats. simpl. rewrite dict_set_fresh.
    + by rewrite <- app_assoc.
    + apply Hfresh, elem_of_cons. by left.
Qed.

Lemma dict_set_keys {V : Type} (k : value) (v v' : V) (d : list (value * V)) :
  dict_get k d = Some v -> map fst (dict_set k v' d) = map fst d.
Proof.
  induction d as [|[k0 v0] d IH]; simpl; [done|].
  destruct (py_eq k0 k); simpl; [done|]. intros H. by rewrite IH.
Qed.

(** C7 (as the code has it).  On a store whose records carry string
    timestamps, [create_chat] returns and binds the first twelve hex
    digits of the UUID it draws, and checks nothing about them.  When
    the ids drawn by N calls are pairwise distinct and none is in the
    store yet, the calls return these N distinct ids, the store gains
    the N records at its end, and every binding it had stays as it was.
    When the id drawn is in the store already, the call returns that id
    again and puts its record in the place of the one that was there:
    the keys of the dict stay as they were, and so does every other
    binding. *)
Theorem create_all_distinct_when_fresh (w : World) (ds : list draw) :
  stamps_are_str w ->
  (NoDup (map (fun d => firstn 12 (draw_uuid d)) ds) ->
   (forall d, d ∈ ds ->
      dict_get (PStr (firstn 12 (draw_uuid d))) (chats w) = None) ->
   exists w',
     create_all ds w
     = (Ok (map (fun d => PDict [(py "id", PStr (firstn 12 (draw_uuid d)));
                                 (py "title", PStr (draw_title d));
                                 (py "created_at", PStr (draw_now d))]) ds), w') /\
     NoDup (map (fun d => PStr (firstn 12 (draw_uuid d))) ds) /\
     chats w'
     = chats w
       ++ map (fun d => (PStr (firstn 12 (draw_uuid d)),
                         {| id := PStr (firstn 12 (draw_uuid d));
                            title := PStr (draw_title d);
                            created_at := PStr (draw_now d);
                            history := PList [] |})) ds)
  /\ (forall d old,
        dict_get (PStr (firstn 12 (draw_uuid d))) (chats w) = Some old ->
        exists w',
          create_chat (draw_uuid d) (draw_now d) (draw_title d) w
          = (Ok (PDict [(py "id", PStr (firstn 12 (draw_uuid d)));
                        (py "title", PStr (draw_title d));
                        (py "created_at", PStr (draw_now d))]), w') /\
          map fst (chats w') = map fst (chats w) /\
          dict_get (PStr (firstn 12 (draw_uuid d))) (chats w')
          = Some {| id := PStr (firstn 12 (draw_uuid d));
                    title := PStr (draw_title d);
                    created_at := PStr (draw_now d);
                    history := PList [] |} /\
          forall c, c <> firstn 12 (draw_uuid d) ->
            dict_get (PStr c) (chats w') = dict_get (PStr c) (chats w)).
Proof.
  intros Hw. split.
  - intros Hnd Hfresh.
    destruct (create_all_fresh ds w Hw Hnd Hfresh) as (w' & Hall & Hchats).
    exists w'. split_and!; [done| |done].
    rewrite <- (map_map (fun d => firstn 12 (draw_uuid d)) PStr).
    apply NoDup_fmap_2; [|done]. by intros a b [= ->].
  - intros d old Hold.
    destruct (create_chat_str d w Hw) as (rows & Hc & _).
    exists (created d rows w). split_and!; [done| | |].
    + simpl. by apply (dict_set_keys _ old).
    + apply (created_holds_record d rows w).
    + intros c Hne. simpl. by rewrite dict_get_set_str, decide_False.
Qed.

Lemma create_all_distinct_when_fresh_witness :
  (exists w',
     create_all [first_draw; third_draw] (boot NoFile)
     = (Ok (map (fun d => PDict [(py "id", PStr (firstn 12 (draw_uuid d)));
                                 (py "title", PStr (draw_title d));
                                 (py "created_at", PStr (draw_now d))])
              [first_draw; third_draw]), w') /\
     NoDup (map (fun d => PStr (firstn 12 (draw_uuid d))) [first_draw; third_draw]) /\
     chats w'
     = chats (boot NoFile)
       ++ map (fun d => (PStr (firstn 12 (draw_uuid d)),
                         {| id := PStr (firstn 12 (draw_uuid d));
                            title := PStr (draw_title d);
                            created_at := PStr (draw_now d);
                            history := PList [] |})) [first_draw; third_draw])
  /\ (let w := snd (create_all [first_draw; third_draw] (boot NoFile)) in
      exists w',
        create_chat (draw_uuid second_draw) (draw_now second_draw)
          (draw_title second_draw) w
        = (Ok (PDict [(py "id", PStr (firstn 12 (draw_uuid second_draw)));
                      (py "title", PStr (draw_title second_draw));
                      (py "created_at", PStr (draw_now second_draw))]), w') /\
        map fst (chats w') = map fst (chats w) /\
        dict_get (PStr (firstn 12 (draw_uuid second_draw))) (chats w')
        = Some {| id := PStr (firstn 12 (draw_uuid second_draw));
                  title := PStr (draw_title second_draw);
                  created_at := PStr (draw_now second_draw);
                  history := PList [] |} /\
        forall c, c <> firstn 12 (draw_uuid second_draw) ->
          dict_get (PStr c) (chats w') = dict_get (PStr c) (chats w)).
Proof.
  split.
  - apply (create_all_distinct_when_fresh (boot NoFile) [first_draw; third_draw]).
    + apply Forall_nil_2.
    + apply NoDup_cons. split; [|apply NoDup_singleton].
      intros H. apply list_elem_of_singleton in H. vm_compute in H. discriminate H.
    + intros d _. reflexivity.
  - apply (proj2 (create_all_distinct_when_fresh
                    (snd (create_all [first_draw; third_draw] (boot NoFile))) []
                    ltac:(repeat constructor))
             second_draw (new_record first_draw)).
    reflexivity.
Defined.

(** Two UUIDs that share their first twelve digits: both calls return
    the same id, and the second record takes the place of the first. *)
Lemma create_chat_collision :
  draw_uuid first_draw <> draw_uuid second_draw /\
  exists w',
    create_all [first_draw; second_draw] (boot NoFile)
    = (Ok [summary (new_record first_draw); summary (new_record second_draw)], w') /\
    id (new_record first_draw) = id (new_record second_draw) /\
    values w' = [new_record second_draw].
Proof.
  split; [discriminate|]. eexists. split_and!; reflexivity.
Qed.

(** ** C9: the route that creates a chat *)

(** C9.  On a store whose records carry string timestamps (so that
    the rows can be sorted and [_save] returns): a title that is empty
    or all whitespace (a missing title counts as empty) is answered with
    400 and [{"error": "title is required"}] and changes nothing.  Any
    other title is answered with 201 and [{"id", "title", "created_at"}]
    holding the first twelve digits of the UUID drawn, the stripped
    title and the time drawn; the record with these values and an empty
    history is bound under the id, every other id finds what it found
    before, and the file holds one row per record of the store, each
    with the record's id, title, timestamp and history, newest first. *)
Theorem create_chat_route_validates (w : World) (data : value) (t uuid now : pystr) :
  get_method data (py "title") (PStr []) = Ok (PStr t) ->
  stamps_are_str w ->
  (forallb isspace t = true ->
   Routes.create_chat data uuid now w
   = (Ok (Reply 400 (PDict [(py "error", PStr (py "title is required"))])), w))
  /\ (forallb isspace t = false ->
      exists rows w',
        Routes.create_chat data uuid now w
        = (Ok (Reply 201 (PDict [(py "id", PStr (firstn 12 uuid));
                                 (py "title", PStr (strip t));
                                 (py "created_at", PStr now)])), w') /\
        dict_get (PStr (firstn 12 uuid)) (chats w')
        = Some {| id := PStr (firstn 12 uuid); title := PStr (strip t);
                  created_at := PStr now; history := PList [] |} /\
        (forall c, c <> firstn 12 uuid ->
           dict_get (PStr c) (chats w') = dict_get (PStr c) (chats w)) /\
        disk w'
        = Json (PDict [(py "chats",
                  PList (map (fun r => PDict [(py "id", id r); (py "title", title r);
                                              (py "created_at", created_at r);
                                              (py "history", history r)]) rows))]) /\
        rows ≡ₚ values w' /\
        newest_first rows).
Proof.
  intros Hget Hw.
  set (d := {| draw_uuid := uuid; draw_now := now; draw_title := strip t |}).
  unfold Routes.create_chat, mbind, M_bind, lift. rewrite Hget. simpl.
  split; intros Ht.
  - apply strip_nil_iff in Ht. by rewrite decide_True.
  - rewrite decide_False.
    2: { intros E. apply strip_nil_iff in E. congruence. }
    destruct (create_chat_str d w Hw) as (rows & Hc & Hperm & Hsorted & _).
    exists rows, (created d rows w). simpl in Hc. rewrite Hc.
    split_and!; [done|apply (created_holds_record d rows w)| |done|done|done].
    intros c Hne. simpl. by rewrite dict_get_set_str, decide_False.
Qed.

Lemma create_chat_route_validates_witness :
  Routes.create_chat (PDict [(py "title", PStr (py "   "))])
    (draw_uuid first_draw) (draw_now first_draw) demo_store
  = (Ok (Reply 400 (PDict [(py "error", PStr (py "title is required"))])),
     demo_store)
  /\ Routes.create_chat (PDict []) (draw_uuid first_draw) (draw_now first_draw)
       demo_store
     = (Ok (Reply 400 (PDict [(py "error", PStr (py "title is required"))])),
        demo_store)
  /\ exists rows w',
       Routes.create_chat (PDict [(py "title", PStr (py "  Demo "))])
         (draw_uuid second_draw) (draw_now second_draw) (boot NoFile)
       = (Ok (Reply 201 (PDict [(py "id", PStr (py "0123456789ab"));
                                (py "title", PStr (py "Demo"));
                                (py "created_at", PStr (draw_now second_draw))])),
          w') /\
       dict_get (PStr (py "0123456789ab")) (chats w')
       = Some {| id := PStr (py "0123456789ab"); title := PStr (py "Demo");
                 created_at := PStr (draw_now second_draw);
                 history := PList [] |} /\
       (forall c, c <> py "0123456789ab" ->
          dict_get (PStr c) (chats w') = dict_get (PStr c) (chats (boot NoFile))) /\
       disk w'
       = Json (PDict [(py "chats",
                 PList (map (fun r => PDict [(py "id", id r); (py "title", title r);
                                             (py "created_at", created_at r);
                                             (py "history", history r)]) rows))]) /\
       rows ≡ₚ values w' /\
       newest_first rows.
Proof.
  assert (Hdemo : stamps_are_str demo_store) by repeat constructor.
  split_and!.
  - apply (create_chat_route_validates demo_store
             (PDict [(py "title", PStr (py "   "))]) (py "   ")
             (draw_uuid first_draw) (draw_now first_draw) eq_refl Hdemo).
    reflexivity.
  - apply (create_chat_route_validates demo_store (PDict []) []
             (draw_uuid first_draw) (draw_now first_draw) eq_refl Hdemo).
    reflexivity.
  - apply (proj2 (create_chat_route_validates (boot NoFile)
                    (PDict [(py "title", PStr (py "  Demo "))]) (py "  Demo ")
                    (draw_uuid second_draw) (draw_now second_draw) eq_refl
                    (Forall_nil_2 _))).
    reflexivity.
Defined.

(** ** C6: the history of a chat *)

Lemma insert_desc_stamps (x x' : ChatRecord) (l l' r : list ChatRecord) :
  created_at x = created_at x' ->
  map created_at l = map created_at l' ->
  insert_desc x l = Ok r ->
  exists r', insert_desc x' l' = Ok r' /\ map created_at r = map created_at r'.
Proof.
  intros Hx. revert l' r. induction l as [|y l IH]; intros [|y' l'] r Hl; try done.
  - intros [= <-]. eexists. split; [done|]. simpl. by rewrite Hx.
  - simpl in Hl. injection Hl as Hy Hl. simpl. rewrite <- Hx, <- Hy.
    destruct (py_lt (created_at x) (created_at y)) as [[]|]; simpl; [| |done].
    + destruct (insert_desc x l) as [r0|] eqn:E; simpl; [|done]. intros [= <-].
      destruct (IH l' r0 Hl eq_refl) as (r' & -> & Hr'). simpl.
      eexists. split; [done|]. simpl. by rewrite Hy, Hr'.
    + intros [= <-]. eexists. split; [done|]. simpl. by rewrite Hx, Hy, Hl.
Qed.

Lemma sorted_desc_stamps (l l' r : list ChatRecord) :
  map created_at l = map created_at l' ->
  sorted_desc l = Ok r ->
  exists r', sorted_desc l' = Ok r' /\ map created_at r = map created_at r'.
Proof.
  revert l' r. induction l as [|x l IH]; intros [|x' l'] r Hl; try done.
  - intros [= <-]. by eexists.
  - simpl in Hl. injection Hl as Hx Hl. simpl.
    destruct (sorted_desc l) as [s|] eqn:E; simpl; [|done]. intros Hr.
    destruct (IH l' s Hl eq_refl) as (s' & -> & Hs'). simpl.
    by apply (insert_desc_stamps x x' s s' r).
Qed.

Lemma dict_set_stamps (k : value) (v v' : ChatRecord)
    (d : list (value * ChatRecord)) :
  dict_get k d = Some v ->
  created_at v' = created_at v ->
  map created_at (map snd (dict_set k v' d)) = map created_at (map snd d).
Proof.
  intros Hget Hv. induction d as [|[k0 v0] d IH]; simpl in *; [done|].
  destruct (py_eq k0 k); simpl.
  - injection Hget as ->. by rewrite Hv.
  - by rewrite IH.
Qed.

Lemma append_message_found (c r t : pystr) (chat : ChatRecord) (l : list value)
    (w : World) :
  dict_get (PStr c) (chats w) = Some chat ->
  history chat = PList l ->
  (exists rows, sorted_desc (values w) = Ok rows) ->
  exists rows,
    let chat' := {| id := id chat; title := title chat;
                    created_at := created_at chat;
                    history := PList (l ++ [message r t]) |} in
    let w1 := set_chats (dict_set (PStr c) chat' (chats w)) w in
    sorted_desc (values w1) = Ok rows /\
    append_message c r t w
    = (Ok tt, add_trace (EWrite (payload_of rows))
                (set_disk (Json (payload_of rows)) w1)).
Proof.
  intros Hget Hl [rows Hrows].
  destruct (sorted_desc_stamps (values w)
    (map snd (dict_set (PStr c)
       {| id := id chat; title := title chat; created_at := created_at chat;
          history := PList (l ++ [message r t]) |} (chats w))) rows)
    as (rows' & Hrows' & _); [|done|].
  { symmetry. by apply (dict_set_stamps _ chat). }
  exists rows'. split; [done|].
  unfold append_message. rewrite Hget.
  unfold history_append, mbind, M_bind, modify, _save, lift, emit. rewrite Hl.
  simpl. unfold values. simpl. by rewrite Hrows'.
Qed.

Lemma append_message_step (cid : pystr) (l : list value) (c r t : pystr)
    (w : World) :
  holds_history cid l w ->
  exists res w',
    append_message c r t w = (res, w') /\
    (c = cid -> res = Ok tt /\ holds_history cid (l ++ [message r t]) w') /\
    (c <> cid -> holds_history cid l w').
Proof.
  intros [(chat & Hget & Hl) Hs].
  destruct (dict_get (PStr c) (chats w)) as [chat_c|] eqn:Hc.
  2: { eexists _, w. split; [by apply append_message_unknown|].
       split; [intros ->; congruence|]. intros _. split; [by eauto|done]. }
  destruct (history chat_c) as [| | | |lc|] eqn:Hlc.
  5: { destruct (append_message_found c r t chat_c lc w Hc Hlc Hs)
         as (rows & Hrows & Happ).
       eexists _, _. split; [exact Happ|]. split.
       - intros ->. split; [done|]. rewrite Hget in Hc. injection Hc as <-.
         rewrite Hl in Hlc. injection Hlc as <-. split; [|by eauto].
         eexists. simpl. rewrite dict_get_set_str, decide_True by done. done.
       - intros Hne. split; [|by eauto].
         exists chat. simpl. rewrite dict_get_set_str, decide_False by done. done. }
  all: eexists _, w; split;
    [unfold append_message; rewrite Hc;
     unfold history_append, mbind, M_bind; rewrite Hlc; reflexivity|];
    split; [intros ->; congruence | intros _; split; [by eauto|done]].
Qed.

Lemma append_each_history (cid : pystr) (ops : list (pystr * pystr * pystr))
    (l : list value) (w : World) :
  holds_history cid l w ->
  exists rs w',
    append_each ops w = (Ok rs, w') /\
    Forall2 (fun op r => op.1.1 = cid -> r = Ok tt) ops rs /\
    holds_history cid (l ++ messages_for cid ops) w'.
Proof.
  revert l w. induction ops as [|[[c r] t] ops IH]; intros l w Hw; simpl.
  - exists [], w. rewrite app_nil_r. by split_and!.
  - destruct (append_message_step cid l c r t w Hw) as (res & w1 & Happ & Hsame & Hother).
    unfold mbind, M_bind, outcome. rewrite Happ.
    destruct (decide (c = cid)) as [E|E].
    + destruct (Hsame E) as [-> Hw1].
      destruct (IH _ _ Hw1) as (rs & w' & -> & Hrs & Hw').
      eexists _, w'. split_and!; [done| |by rewrite <- app_assoc in Hw'].
      by apply Forall2_cons.
    + destruct (IH _ _ (Hother E)) as (rs & w' & -> & Hrs & Hw').
      eexists _, w'. split_and!; [done| |done].
      apply Forall2_cons. split; [done|done].
Qed.

Lemma create_chat_holds (d : draw) (s : value) (w w1 : World) :
  create_chat (draw_uuid d) (draw_now d) (draw_title d) w = (Ok s, w1) ->
  s = summary (new_record d) /\ holds_history (drawn_id d) [] w1.
Proof.
  unfold create_chat, mbind, M_bind, chats_setitem, _save, lift, modify, emit.
  simpl. fold (drawn_id d). fold (new_record d).
  destruct (sorted_desc _) as [rows|] eqn:Hrows; simpl; [|done].
  intros [= <- <-]. split; [done|]. split.
  - exists (new_record d). simpl. rewrite dict_get_set_str, decide_True by done. done.
  - by exists rows.
Qed.

Lemma messages_for_filter (cid : pystr) (ops : list (pystr * pystr * pystr)) :
  messages_for cid ops
  = map (fun op => PDict [(py "role", PStr op.1.2); (py "content", PStr op.2)])
      (filter (fun op => op.1.1 = cid) ops).
Proof.
  induction ops as [|[[c r] t] ops IH]; [done|]. simpl.
  rewrite filter_cons. simpl. destruct (decide (c = cid)); simpl; by rewrite IH.
Qed.

(** C6.  Once [create_chat] has returned (its result holds the id, the
    first twelve digits of the UUID drawn), any sequence of calls of
    [append_message], to this chat or to others, leaves the chat with
    exactly the messages appended to it, each [{"role": role,
    "content": content}] as it was given, in the order of the calls:
    each call for the chat returns normally, and [get_messages] then
    returns that list. *)
Theorem history_is_the_appended_messages
    (d : draw) (s : value) (ops : list (pystr * pystr * pystr)) (w w1 : World) :
  create_chat (draw_uuid d) (draw_now d) (draw_title d) w = (Ok s, w1) ->
  let cid := firstn 12 (draw_uuid d) in
  s = PDict [(py "id", PStr cid); (py "title", PStr (draw_title d));
             (py "created_at", PStr (draw_now d))] /\
  exists rs w2,
    append_each ops w1 = (Ok rs, w2) /\
    Forall2 (fun op r => op.1.1 = cid -> r = Ok tt) ops rs /\
    get_messages cid w2
    = (Ok (PList (map (fun op => PDict [(py "role", PStr op.1.2);
                                        (py "content", PStr op.2)])
                    (filter (fun op => op.1.1 = cid) ops))), w2).
Proof.
  intros Hc cid. apply create_chat_holds in Hc as [-> Hw1]. split; [done|].
  destruct (append_each_history (drawn_id d) ops [] w1 Hw1)
    as (rs & w2 & Happ & Hrs & [(chat & Hget & Hl) _]).
  exists rs, w2. split_and!; [done|done|].
  unfold get_messages. fold (drawn_id d) in cid. subst cid. rewrite Hget.
  unfold mbind, M_bind, lift. rewrite Hl. simpl. by rewrite messages_for_filter.
Qed.

Lemma history_is_the_appended_messages_witness :
  let cid := py "0123456789ab" in
  let ops := [(cid, py "user", py "hi"); (py "nobody", py "user", py "lost");
              (cid, py "assistant", py "hello")] in
  exists rs w2,
    append_each ops (snd (create_chat (draw_uuid first_draw) (draw_now first_draw)
                            (draw_title first_draw) (boot NoFile)))
    = (Ok rs, w2) /\
    Forall2 (fun op r => op.1.1 = cid -> r = Ok tt) ops rs /\
    get_messages cid w2
    = (Ok (PList [PDict [(py "role", PStr (py "user")); (py "content", PStr (py "hi"))];
                  PDict [(py "role", PStr (py "assistant"));
                         (py "content", PStr (py "hello"))]]), w2).
Proof.
  exact (proj2 (history_is_the_appended_messages first_draw
           (PDict [(py "id", PStr (py "0123456789ab"));
                   (py "title", PStr (draw_title first_draw));
                   (py "created_at", PStr (draw_now first_draw))])
           [(py "0123456789ab", py "user", py "hi");
            (py "nobody", py "user", py "lost");
            (py "0123456789ab", py "assistant", py "hello")]
           (boot NoFile)
           (snd (create_chat (draw_uuid first_draw) (draw_now first_draw)
                   (draw_title first_draw) (boot NoFile))) eq_refl)).
Defined.

(** ** Equality of keys *)

Lemma py_eq_refl (a : value) : hashable a = true -> py_eq a a = true.
Proof. destruct a; py_eq_cases. Qed.

Lemma py_eq_sym (a b : value) : hashable a = true -> py_eq a b = py_eq b a.
Proof.
  destruct a, b; cbn [py_eq as_int hashable]; try done; intros _.
  - by rewrite Z.eqb_sym.
  - by rewrite Z.eqb_sym.
  - by rewrite Z.eqb_sym.
  - by rewrite Z.eqb_sym.
  - apply bool_decide_ext. split; congruence.
Qed.

Lemma py_eq_trans (a b c : value) :
  hashable a = true -> hashable b = true ->
  py_eq a b = true -> py_eq b c = true -> py_eq a c = true.
Proof. destruct a, b; try done; destruct c; py_eq_cases. Qed.

Lemma py_eq_hashable (a b : value) :
  hashable a = true -> py_eq a b = true -> hashable b = true.
Proof. destruct a, b; py_eq_cases. Qed.

Lemma py_eq_str_r (s : pystr) (v : value) : py_eq (PStr s) v = true <-> v = PStr s.
Proof. rewrite py_eq_sym by done. apply py_eq_str_l. Qed.

(** ** The invariant of the dict *)

Lemma dict_ok_get_None (k : value) (v : ChatRecord)
    (acc rest : list (value * ChatRecord)) :
  dict_ok (acc ++ (k, v) :: rest) -> dict_get k acc = None.
Proof.
  induction acc as [|[k0 v0] acc IH]; simpl; [done|].
  intros H. inversion H as [|? ? ? Hh Hid Hall Hok]; subst.
  apply Forall_app in Hall as [_ Hall]. apply Forall_cons in Hall as [Hk _].
  simpl in Hk. rewrite Hk. by apply IH.
Qed.

Lemma dict_set_keeps_keys (k k0 : value) (v : ChatRecord)
    (c : list (value * ChatRecord)) :
  py_eq k0 k = false ->
  Forall (fun kr => py_eq k0 kr.1 = false) c ->
  Forall (fun kr => py_eq k0 kr.1 = false) (dict_set k v c).
Proof.
  intros Hk Hc. induction c as [|[k1 v1] c IH]; simpl.
  - by repeat constructor.
  - apply Forall_cons in Hc as [H1 Hc]. destruct (py_eq k1 k); constructor; auto.
Qed.

Lemma dict_ok_set (k : value) (v : ChatRecord) (c : list (value * ChatRecord)) :
  dict_ok c -> hashable k = true -> py_eq k (id v) = true ->
  dict_ok (dict_set k v c).
Proof.
  intros Hc Hk Hv. induction Hc as [|k0 r0 c Hh Hid Hall Hc IH]; simpl.
  - constructor; [done|done|constructor|constructor].
  - destruct (py_eq k0 k) eqn:E.
    + constructor; [done| |done|done]. by apply (py_eq_trans k0 k).
    + constructor; [done|done| |done]. by apply dict_set_keeps_keys.
Qed.

Lemma dict_ok_load_item (item : value) (w : World) :
  dict_ok (chats w) -> dict_ok (chats (snd (load_item item w))).
Proof.
  intros Hw. destruct (record_of item) as [c|] eqn:E.
  - rewrite (load_item_Some _ _ _ E). simpl.
    destruct item as [| | | | |o]; try done. simpl in E.
    repeat case_match; try done. injection E as <-. simpl.
    apply dict_ok_set; [done|done|by apply py_eq_refl].
  - by destruct (load_item_None _ w E) as [e ->].
Qed.

(** X2.  Whatever the file holds (no number of it being a float, which
    the values here do not have), the store starts with a dict that
    satisfies the invariant of the dict: hashable keys, no two of them
    equal, every record under a key equal to its id. *)
Lemma dict_ok_boot (f : snapshot_file) : dict_ok (chats (ChatStore_init f)).
Proof.
  destruct f as [| |raw]; [constructor|constructor|].
  unfold ChatStore_init, _load, try_except, mbind, M_bind, lift, read_json. simpl.
  destruct (get_method (loads_dumps raw) _ _) as [cs|]; simpl; [|constructor].
  destruct (iter cs) as [items|]; simpl; [|constructor].
  assert (H : forall w, dict_ok (chats w) ->
                        dict_ok (chats (snd (for_each load_item items w)))).
  { induction items as [|x items IH]; intros w Hw; simpl; [done|].
    unfold mbind, M_bind. pose proof (dict_ok_load_item x w Hw) as Hx.
    destruct (load_item x w) as [[[]|e] w1]; simpl in *; [by apply IH|done]. }
  specialize (H (boot (Json raw)) dict_ok_nil).
  by destruct (for_each load_item items _) as [[[]|e] w1].
Qed.



(** ** C5: the snapshot read back *)

Lemma dict_ok_elem (c : list (value * ChatRecord)) (k : value) (r : ChatRecord) :
  dict_ok c -> (k, r) ∈ c -> hashable k = true /\ py_eq k (id r) = true.
Proof.
  induction 1 as [|k0 r0 c Hh Hid Hall Hc IH]; intros Hin.
  - by apply elem_of_nil in Hin.
  - apply elem_of_cons in Hin as [[= -> ->]|Hin]; [done|by apply IH].
Qed.

Lemma dict_ok_by_id (c : list (value * ChatRecord)) :
  dict_ok c -> dict_ok (by_id (map snd c)).
Proof.
  induction 1 as [|k r c Hh Hid Hall Hc IH]; simpl; [constructor|].
  assert (Hr : hashable (id r) = true) by by apply (py_eq_hashable k).
  constructor; [done|by apply py_eq_refl| |done].
  unfold by_id. rewrite Forall_fmap, Forall_fmap. rewrite Forall_forall in Hall |- *.
  intros [k' r'] Hin. simpl.
  destruct (dict_ok_elem _ _ _ Hc Hin) as [Hk' Hid'].
  specialize (Hall _ Hin). simpl in Hall.
  destruct (py_eq (id r) (id r')) eqn:E; [|done].
  assert (H1 : py_eq k (id r') = true) by by apply (py_eq_trans k (id r)).
  assert (H2 : py_eq (id r') k' = true).
  { rewrite py_eq_sym; [done|]. by apply (py_eq_hashable k'). }
  assert (H3 : py_eq k k' = true).
  { apply (py_eq_trans k (id r')); [done| |done|done]. by apply (py_eq_hashable k'). }
  congruence.
Qed.

Lemma dict_ok_perm (rows rows' : list ChatRecord) :
  rows ≡ₚ rows' -> dict_ok (by_id rows) -> dict_ok (by_id rows').
Proof.
  induction 1 as [|x l l' Hp IH|x y l|l1 l2 l3 _ IH1 _ IH2]; simpl; [done| | |by auto].
  - intros H. inversion H as [|? ? ? Hh Hid Hall Hc]; subst.
    constructor; [done|done| |by apply IH].
    unfold by_id in *. by rewrite <- Hp.
  - intros H. inversion H as [|? ? ? Hy Hidy Hally Hc]; subst.
    inversion Hc as [|? ? ? Hx Hidx Hallx Hc']; subst.
    apply Forall_cons in Hally as [Hyx Hally]. simpl in Hyx.
    constructor; [done|done| |].
    + constructor; [|done]. simpl. by rewrite py_eq_sym.
    + by constructor.
Qed.

Lemma dict_ok_ids_hashable (rows : list ChatRecord) :
  dict_ok (by_id rows) -> Forall (fun r => hashable (id r) = true) rows.
Proof.
  induction rows as [|r rows IH]; simpl; [constructor|].
  intros H. inversion H; subst. constructor; [done|by apply IH].
Qed.

Lemma record_of_record_json (r : ChatRecord) :
  hashable (id r) = true -> record_of (record_json r) = Some r.
Proof.
  destruct r as [i t c h]. simpl. intros Hi.
  change (str_lookup (py "id") _) with (Some i).
  change (str_lookup (py "title") _) with (Some t).
  change (str_lookup (py "created_at") _) with (Some c).
  change (str_lookup (py "history") _) with (Some h).
  by rewrite Hi.
Qed.

Lemma loaded_prefix_record_json (rows : list ChatRecord) :
  Forall (fun r => hashable (id r) = true) rows ->
  loaded_prefix (map record_json rows) = rows
  /\ Forall (fun x => is_Some (record_of x)) (map record_json rows).
Proof.
  induction 1 as [|r rows Hr Hrows [IH1 IH2]]; [by split|].
  cbn [map loaded_prefix].
  rewrite (record_of_record_json r Hr), IH1. split; [done|].
  constructor; [|done]. rewrite (record_of_record_json r Hr). by eexists.
Qed.

Lemma insert_all_by_id (rows : list ChatRecord) (acc : list (value * ChatRecord)) :
  dict_ok (acc ++ by_id rows) -> insert_all rows acc = acc ++ by_id rows.
Proof.
  revert acc. induction rows as [|r rows IH]; intros acc; simpl.
  - by rewrite app_nil_r.
  - intros H. rewrite (dict_set_fresh _ _ _ (dict_ok_get_None _ _ _ _ H)).
    change (foldl _ ?a rows) with (insert_all rows a).
    rewrite IH; rewrite <- app_assoc; done.
Qed.

Lemma dict_get_ok (c : list (value * ChatRecord)) (s : pystr) (r : ChatRecord) :
  dict_ok c ->
  dict_get (PStr s) c = Some r <-> r ∈ map snd c /\ id r = PStr s.
Proof.
  intros Hc. split.
  - intros Hget. destruct (dict_get_elem _ _ _ Hget) as (k & Hin & Hk).
    apply py_eq_str_l in Hk as ->. split.
    + apply list_elem_of_fmap. by exists (PStr s, r).
    + destruct (dict_ok_elem _ _ _ Hc Hin) as [_ Hid]. by apply py_eq_str_r in Hid.
  - intros [Hin Hid]. apply list_elem_of_fmap in Hin as ([k r'] & -> & Hin). simpl in *.
    induction Hc as [|k0 r0 c Hh Hid0 Hall Hc IH]; [by apply elem_of_nil in Hin|].
    simpl. apply elem_of_cons in Hin as [[= -> ->]|Hin].
    + rewrite Hid in Hid0. by rewrite Hid0.
    + destruct (py_eq k0 (PStr s)) eqn:E; [|by apply IH].
      exfalso. apply py_eq_str_l in E as ->.
      rewrite Forall_forall in Hall. specialize (Hall _ Hin). simpl in Hall.
      destruct (dict_ok_elem _ _ _ Hc Hin) as [Hk Hkid]. rewrite Hid in Hkid.
      apply py_eq_str_l in Hkid as ->. simpl in Hall.
      by rewrite bool_decide_true in Hall.
Qed.

(** *** What is read back *)

Lemma join_pair_free (s : pystr) : pair_free s = true -> join_surrogates s = s.
Proof.
  induction s as [|a s IH]; [done|]. cbn [pair_free join_surrogates].
  destruct s as [|b s]; [done|]. intros H. apply andb_prop in H as [H1 H2].
  apply negb_true_iff in H1. rewrite H1. by rewrite (IH H2).
Qed.

Lemma loads_dumps_PDict (d : list (pystr * value)) :
  loads_dumps (PDict d)
  = PDict (foldl (fun acc kx => str_set (join_surrogates kx.1) (loads_dumps kx.2) acc)
             [] d).
Proof.
  cbn [loads_dumps]. f_equal. generalize (@nil (pystr * value)).
  induction d as [|[k x] d IH]; intros acc; [done|]. simpl. apply IH.
Qed.

Lemma str_set_fresh (k : pystr) (v : value) (d : list (pystr * value)) :
  str_lookup k d = None -> str_set k v d = d ++ [(k, v)].
Proof.
  induction d as [|[k' v'] d IH]; simpl; [done|].
  destruct (decide (k' = k)); [done|]. intros H. by rewrite IH.
Qed.

Lemma str_lookup_snoc (k k' : pystr) (v : value) (d : list (pystr * value)) :
  k' <> k -> str_lookup k (d ++ [(k', v)]) = str_lookup k d.
Proof.
  intros Hne. induction d as [|[k0 v0] d IH]; simpl.
  - by rewrite decide_False.
  - by destruct (decide (k0 = k)).
Qed.

Lemma str_lookup_None_elem (k k' : pystr) (v : value) (d : list (pystr * value)) :
  str_lookup k d = None -> (k', v) ∈ d -> k' <> k.
Proof.
  induction d as [|[k0 v0] d IH]; simpl; intros H Hin; [by apply elem_of_nil in Hin|].
  destruct (decide (k0 = k)); [done|].
  apply elem_of_cons in Hin as [[= -> ->]|Hin]; [done|by apply IH].
Qed.

(** Pairs are joined from left to right, in values and in keys, and a
    key that comes again keeps the place of the first and the value of
    the last. *)
Example loads_dumps_joins :
  loads_dumps (PStr [55357; 55357; 56832]%N) = PStr [55357; 128512]%N /\
  loads_dumps (PStr [56832; 55357]%N) = PStr [56832; 55357]%N /\
  loads_dumps (PStr [55357; 56832; 56832]%N) = PStr [128512; 56832]%N /\
  loads_dumps (PDict [([55357; 56832]%N, PInt 1);
                      (py "k", PList [PStr [55357; 56832]%N; PNone; PBool true; PInt 7]);
                      ([128512]%N, PInt 2)])
  = PDict [([128512]%N, PInt 2);
           (py "k", PList [PStr [128512]%N; PNone; PBool true; PInt 7])].
Proof. split_and!; reflexivity. Qed.

(** A plain value is read back as it was written. *)
Lemma plain_loads_dumps (v : value) : plain v = true -> loads_dumps v = v.
Proof.
  induction v as [| | |s|l IH|d IH] using value_ind_nested; try done.
  - simpl. intros H. by rewrite join_pair_free.
  - simpl. intros H. f_equal. induction IH as [|x l Hx _ IHl]; [done|].
    simpl in H. apply andb_prop in H as [H1 H2]. simpl. by rewrite Hx, IHl.
  - rewrite loads_dumps_PDict. cbn [plain]. intros H. f_equal.
    enough (G : forall acc, (forall k v, (k, v) ∈ d -> str_lookup k acc = None) ->
              foldl (fun acc kx => str_set (join_surrogates kx.1) (loads_dumps kx.2) acc)
                acc d = acc ++ d).
    { by apply (G []). }
    induction IH as [|[k x] d Hx _ IHd]; intros acc Hacc.
    { by rewrite app_nil_r. }
    repeat (apply andb_prop in H as [H ?]).
    destruct (str_lookup k d) eqn:Hk; [done|].
    simpl in Hx |- *. rewrite join_pair_free, Hx by done.
    rewrite str_set_fresh by (apply (Hacc k x), elem_of_cons; by left).
    rewrite IHd; [by rewrite <- app_assoc|done|].
    intros k' v' Hin. rewrite str_lookup_snoc.
    + apply (Hacc k' v'), elem_of_cons. by right.
    + intros ->. by apply (str_lookup_None_elem _ _ _ _ Hk Hin).
Qed.

Lemma loads_dumps_record_json (r : ChatRecord) :
  loads_dumps (record_json r)
  = record_json {| id := loads_dumps (id r); title := loads_dumps (title r);
                   created_at := loads_dumps (created_at r);
                   history := loads_dumps (history r) |}.
Proof. reflexivity. Qed.

Lemma plain_record_json (r : ChatRecord) :
  plain_record r = true -> loads_dumps (record_json r) = record_json r.
Proof.
  intros H. rewrite loads_dumps_record_json. unfold plain_record in H.
  repeat (apply andb_prop in H as [H ?]).
  rewrite !plain_loads_dumps by done. by destruct r.
Qed.

Lemma plain_rows (rows : list ChatRecord) :
  Forall (fun r => plain_record r = true) rows ->
  map loads_dumps (map record_json rows) = map record_json rows.
Proof.
  induction 1 as [|r rows Hr _ IH]; [done|]. cbn [map].
  by rewrite IH, plain_record_json.
Qed.

Lemma load_snapshot (items : list value) :
  Forall (fun x => is_Some (record_of x)) (map loads_dumps items) ->
  ChatStore_init (snapshot items)
  = set_chats (insert_all (loaded_prefix (map loads_dumps items)) [])
      (boot (snapshot items)).
Proof.
  intros Hall. unfold ChatStore_init, snapshot, _load. simpl.
  unfold try_except, mbind, M_bind, lift, read_json. cbn [disk boot fst snd].
  change (loads_dumps (PDict [(py "chats", PList items)]))
    with (PDict [(py "chats", PList (map loads_dumps items))]).
  cbn [get_method]. change (str_lookup (py "chats") _)
    with (Some (PList (map loads_dumps items))). simpl.
  destruct (for_each_load_item (map loads_dumps items) (boot (snapshot items)))
    as (r & Hr & Hiff).
  unfold snapshot in Hr. rewrite Hr. apply Hiff in Hall as ->. done.
Qed.

(** A file that holds plain rows, each bound once: the store that starts
    on it holds these rows and has logged nothing. *)
Lemma load_plain_rows (rows : list ChatRecord) :
  dict_ok (by_id rows) ->
  Forall (fun r => plain_record r = true) rows ->
  ChatStore_init (snapshot (map record_json rows))
  = set_chats (by_id rows) (boot (snapshot (map record_json rows))).
Proof.
  intros Hok Hplain.
  destruct (loaded_prefix_record_json rows (dict_ok_ids_hashable _ Hok)) as [Hpre Hall].
  rewrite load_snapshot; rewrite plain_rows by done; [|done].
  by rewrite Hpre, (insert_all_by_id rows []).
Qed.

Lemma dict_get_same (c c' : list (value * ChatRecord)) (chat_id : pystr) :
  dict_ok c -> dict_ok c' -> map snd c' ≡ₚ map snd c ->
  dict_get (PStr chat_id) c' = dict_get (PStr chat_id) c.
Proof.
  intros Hok Hok' Hp.
  destruct (dict_get (PStr chat_id) c') as [r|] eqn:E1;
    destruct (dict_get (PStr chat_id) c) as [r'|] eqn:E2; [| | |done].
  - apply (dict_get_ok _ _ _ Hok') in E1 as [Hin Hid]. rewrite Hp in Hin.
    assert (E : dict_get (PStr chat_id) c = Some r) by by apply dict_get_ok.
    congruence.
  - apply (dict_get_ok _ _ _ Hok') in E1 as [Hin Hid]. rewrite Hp in Hin.
    assert (E : dict_get (PStr chat_id) c = Some r) by by apply dict_get_ok.
    congruence.
  - apply (dict_get_ok _ _ _ Hok) in E2 as [Hin Hid]. rewrite <- Hp in Hin.
    assert (E : dict_get (PStr chat_id) c' = Some r') by by apply dict_get_ok.
    congruence.
Qed.

Lemma by_id_values (rows : list ChatRecord) : map snd (by_id rows) = rows.
Proof. unfold by_id. rewrite map_map. simpl. apply map_id. Qed.

(** C5 (as the code has it).  On a store none of whose strings holds a
    high surrogate directly followed by a low surrogate: when [_save]
    has written the store, the file holds one row per record, with the
    record's id, title, timestamp and history; and a fresh store started
    on that file, or on the file with its rows in any other order, loads
    without a failure and holds the same records, each found under the
    same chat id. *)
Theorem snapshot_roundtrip (w w1 : World) :
  dict_ok (chats w) ->
  Forall (fun r => plain_record r = true) (values w) ->
  _save w = (Ok tt, w1) ->
  exists rows,
    rows ≡ₚ values w /\
    disk w1
    = Json (PDict [(py "chats",
              PList (map (fun r => PDict [(py "id", id r); (py "title", title r);
                                          (py "created_at", created_at r);
                                          (py "history", history r)]) rows))]) /\
    forall rows',
      rows' ≡ₚ rows ->
      let w2 :=
        ChatStore_init
          (Json (PDict [(py "chats",
             PList (map (fun r => PDict [(py "id", id r); (py "title", title r);
                                         (py "created_at", created_at r);
                                         (py "history", history r)]) rows'))])) in
      trace w2 = [] /\
      values w2 ≡ₚ values w /\
      forall chat_id,
        dict_get (PStr chat_id) (chats w2) = dict_get (PStr chat_id) (chats w).
Proof.
  intros Hok Hplain Hsave. unfold _save, mbind, M_bind, lift, modify, emit in Hsave.
  destruct (sorted_desc (values w)) as [rows|] eqn:Hrows; [|done].
  injection Hsave as <-. pose proof (sorted_desc_perm _ _ Hrows) as Hperm.
  exists rows. split_and!; [done|done|].
  intros rows' Hrows'.
  assert (Hvals : rows' ≡ₚ values w) by by rewrite Hrows'.
  assert (Hok' : dict_ok (by_id rows')).
  { apply (dict_ok_perm (values w)); [done|]. by apply dict_ok_by_id. }
  assert (Hplain' : Forall (fun r => plain_record r = true) rows').
  { by rewrite Hvals. }
  change (Json (PDict [(py "chats", PList (map _ rows'))]))
    with (snapshot (map record_json rows')).
  rewrite (load_plain_rows rows' Hok' Hplain'). simpl.
  split_and!; [done|by unfold values; simpl; rewrite by_id_values|].
  intros chat_id. apply dict_get_same; [done|done|by rewrite by_id_values].
Qed.

Lemma snapshot_roundtrip_witness :
  dict_ok (chats demo_store) /\
  Forall (fun r => plain_record r = true) (values demo_store) /\
  exists rows,
    rows ≡ₚ values demo_store /\
    disk (snd (_save demo_store))
    = Json (PDict [(py "chats",
              PList (map (fun r => PDict [(py "id", id r); (py "title", title r);
                                          (py "created_at", created_at r);
                                          (py "history", history r)]) rows))]) /\
    forall rows',
      rows' ≡ₚ rows ->
      let w2 :=
        ChatStore_init
          (Json (PDict [(py "chats",
             PList (map (fun r => PDict [(py "id", id r); (py "title", title r);
                                         (py "created_at", created_at r);
                                         (py "history", history r)]) rows'))])) in
      trace w2 = [] /\
      values w2 ≡ₚ values demo_store /\
      forall chat_id,
        dict_get (PStr chat_id) (chats w2)
        = dict_get (PStr chat_id) (chats demo_store).
Proof.
  assert (H : dict_ok (chats demo_store)).
  { vm_compute. repeat constructor. }
  assert (Hp : Forall (fun r => plain_record r = true) (values demo_store)).
  { repeat constructor. }
  split; [exact H|]. split; [exact Hp|].
  apply (snapshot_roundtrip demo_store (snd (_save demo_store)) H Hp).
  reflexivity.
Defined.

(** *** The text of a surrogate pair

    The two code points of a pair and the character they encode are
    written as the same text, so no reader could give both back. *)

Lemma lor_low_bits (base p : N) :
  forallb (fun p => N.lor base p =? base + p)%N (map N.of_nat (seq 0 1024)) = true ->
  (p < 1024)%N -> N.lor base p = (base + p)%N.
Proof.
  intros H Hp. rewrite forallb_forall in H.
  apply N.eqb_eq. apply H. apply in_map_iff. exists (N.to_nat p).
  split; [apply N2Nat.id|]. apply in_seq. lia.
Qed.

Lemma split_pair (p r : N) :
  (p < 1024)%N -> (r < 1024)%N ->
  N.land (N.shiftr (p * 1024 + r) 10) 1023 = p /\ N.land (p * 1024 + r) 1023 = r.
Proof.
  intros Hp Hr. change 1023%N with (N.ones 10).
  rewrite !N.land_ones, N.shiftr_div_pow2. change (2 ^ 10)%N with 1024%N.
  rewrite N.div_add_l by lia. rewrite (N.div_small r) by lia.
  rewrite N.add_0_r, (N.mod_small p) by lia. split; [done|].
  rewrite N.add_comm, N.Div0.mod_add. by apply N.mod_small.
Qed.

Lemma escape_char_high (c : N) :
  (127 <= c)%N ->
  escape_char c
  = if (c <? 65536)%N then u_escape c
    else u_escape (N.lor 55296 (N.land (N.shiftr (c - 65536) 10) 1023))
         ++ u_escape (N.lor 56320 (N.land (c - 65536) 1023)).
Proof.
  intros Hc. unfold escape_char.
  repeat match goal with
         | |- context [(c =? ?k)%N] => destruct (N.eqb_spec c k); [lia|]
         end.
  destruct (N.leb_spec c 126); [lia|]. by rewrite andb_false_r.
Qed.

Lemma escape_char_pair (a b : N) :
  is_high_surrogate a = true -> is_low_surrogate b = true ->
  escape_char (65536 + (a - 55296) * 1024 + (b - 56320))
  = escape_char a ++ escape_char b.
Proof.
  unfold is_high_surrogate, is_low_surrogate. intros Ha Hb.
  apply andb_prop in Ha as [Ha1 Ha2]. apply andb_prop in Hb as [Hb1 Hb2].
  apply N.leb_le in Ha1, Ha2, Hb1, Hb2.
  rewrite !escape_char_high by lia.
  destruct (N.ltb_spec a 65536); [|lia]. destruct (N.ltb_spec b 65536); [|lia].
  destruct (N.ltb_spec (65536 + (a - 55296) * 1024 + (b - 56320)) 65536); [lia|].
  replace (65536 + (a - 55296) * 1024 + (b - 56320) - 65536)%N
    with ((a - 55296) * 1024 + (b - 56320))%N by lia.
  destruct (split_pair (a - 55296) (b - 56320)) as [-> ->]; [lia|lia|].
  rewrite !lor_low_bits by (lia || (vm_compute; reflexivity)).
  f_equal; f_equal; lia.
Qed.

Lemma join_surrogates_cons (a b : N) (t : pystr) :
  join_surrogates (a :: b :: t)
  = if is_high_surrogate a && is_low_surrogate b
    then (65536 + (a - 55296) * 1024 + (b - 56320))%N :: join_surrogates t
    else a :: join_surrogates (b :: t).
Proof. reflexivity. Qed.

Lemma join_same_text (s : pystr) :
  dumps (PStr (join_surrogates s)) = dumps (PStr s).
Proof.
  cbn [dumps]. unfold encode_basestring_ascii. f_equal. f_equal.
  remember (length s) as n eqn:Hn. revert s Hn.
  induction (lt_wf n) as [n _ IH]. intros s Hn.
  destruct s as [|a [|b t]]; [done|done|]. rewrite join_surrogates_cons.
  destruct (is_high_surrogate a && is_low_surrogate b) eqn:E.
  - apply andb_prop in E as [Ha Hb]. cbn [map concat].
    rewrite (escape_char_pair a b Ha Hb), <- app_assoc. do 2 f_equal.
    apply (IH (length t)); [|done]. simpl in Hn. lia.
  - cbn [map concat]. f_equal. apply (IH (length (b :: t))); [|done].
    simpl in Hn |- *. lia.
Qed.

(** A title that holds a high surrogate directly followed by a low one
    is not read back: the route stores the two code points, [_save]
    writes them as two escapes, and the store that starts on the file
    holds the one character they encode. *)
Lemma roundtrip_joins_a_surrogate_pair :
  let data := PDict [(py "title", PStr surrogate_title)] in
  let cid := PStr (firstn 12 (draw_uuid first_draw)) in
  let w := snd (Routes.create_chat data (draw_uuid first_draw)
                  (draw_now first_draw) (boot NoFile)) in
  let w2 := ChatStore_init (disk (snd (_save w))) in
  fst (_save w) = Ok tt /\
  trace w2 = [] /\
  (title <$> dict_get cid (chats w)) = Some (PStr surrogate_title) /\
  (title <$> dict_get cid (chats w2)) = Some (PStr joined_title) /\
  surrogate_title <> joined_title.
Proof. split_and!; try reflexivity. discriminate. Qed.

(** ** C2: delivery of a reply *)

(** A comparison raises nothing but [TypeError]. *)
Lemma py_lt_raises (a b : value) (e : exn) : py_lt a b = Raise e -> e = TypeError.
Proof.
  revert b. induction a as [|x|n|s|l IH|d IH] using value_ind_nested;
    intros [|y|m|t|l'|d']; simpl; try congruence.
  revert l'. induction IH as [|x l Hx _ IHl]; intros [|y l']; try done.
  destruct (py_eq x y); [apply IHl|apply Hx].
Qed.

Lemma insert_desc_raises (x : ChatRecord) (l : list ChatRecord) (e : exn) :
  insert_desc x l = Raise e -> e = TypeError.
Proof.
  induction l as [|y l IH]; simpl; [done|].
  destruct (py_lt (created_at x) (created_at y)) as [[]|e'] eqn:E; simpl.
  - destruct (insert_desc x l); simpl; [done|]. intros [= <-]. by apply IH.
  - done.
  - intros [= <-]. by apply py_lt_raises in E.
Qed.

Lemma sorted_desc_raises (l : list ChatRecord) (e : exn) :
  sorted_desc l = Raise e -> e = TypeError.
Proof.
  induction l as [|x l IH]; simpl; [done|].
  destruct (sorted_desc l) as [s|e']; simpl.
  - apply insert_desc_raises.
  - intros [= <-]. by apply IH.
Qed.




(** The scenario of a reply to a chat with one subscriber. *)
Example deliver_scenario :
  let w := snd (subscribe demo_store) in
  let w' := snd (send (drawn_id first_draw) (py "hello") w) in
  fst (get_messages (drawn_id first_draw) w')
  = Ok (PList [message (py "user") (py "hi");
               message (py "assistant") (py "hello")]) /\
  fst (_sse_generator 0 demo_store) = Ok [] /\
  fst (next_frame 0 w')
  = Ok (Data (event (drawn_id first_draw) (py "assistant") (py "hello"))).
Proof. vm_compute. by split_and!. Qed.

(** ** C10: the list a caller is given *)

Lemma heap_lookup_elem (k : pystr) (v : Heap.ChatRecord)
    (d : list (pystr * Heap.ChatRecord)) :
  Heap.lookup k d = Some v -> (k, v) ∈ d.
Proof.
  induction d as [|[k' v'] d IH]; simpl; [done|].
  destruct (decide (k' = k)) as [->|_].
  - intros [= ->]. apply elem_of_cons. by left.
  - intros H. apply elem_of_cons. right. by apply IH.
Qed.

Lemma heap_fresh_None (s : Heap.Store) :
  Heap.objects s !! fresh (dom (Heap.objects s)) = None.
Proof. apply not_elem_of_dom, is_fresh. Qed.

(** A list reads the same in a heap that keeps it and keeps the dicts. *)
Lemma read_list_frame (s s2 : Heap.Store) (l : Heap.loc) :
  Heap.closed s ->
  Heap.objects s2 !! l = Heap.objects s !! l ->
  (forall i d, Heap.objects s !! i = Some (Heap.ODict d) ->
               Heap.objects s2 !! i = Some (Heap.ODict d)) ->
  Heap.read_list s2 l = Heap.read_list s l.
Proof.
  intros [_ Hitems] Hl Hd. unfold Heap.read_list. rewrite Hl.
  destruct (Heap.objects s !! l) as [[items|d]|] eqn:E; [|done|done].
  f_equal. apply map_ext_in. intros i Hi. apply list_elem_of_In in Hi.
  destruct (Hitems l items i E Hi) as [d Hd']. unfold Heap.read_item.
  by rewrite (Hd i d Hd'), Hd'.
Qed.

Lemma closed_alloc_list (s : Heap.Store) (h : Heap.loc) (items : list Heap.loc) :
  Heap.closed s ->
  Heap.objects s !! h = Some (Heap.OList items) ->
  Heap.closed (snd (Heap.alloc (Heap.OList items) s)).
Proof.
  intros [Hh Hi] E. pose proof (heap_fresh_None s) as Hf. split; simpl.
  - intros c chat Hin. destruct (Hh c chat Hin) as [its Hits]. exists its.
    rewrite lookup_insert_ne; [done|]. intros Eq. congruence.
  - intros l its i Hl Hin.
    assert (Hd : exists d, Heap.objects s !! i = Some (Heap.ODict d)).
    { destruct (decide (l = fresh (dom (Heap.objects s)))) as [->|Hne].
      - rewrite lookup_insert_eq in Hl. injection Hl as <-. by apply (Hi h items).
      - rewrite lookup_insert_ne in Hl by done. by apply (Hi l its). }
    destruct Hd as [d Hd]. exists d.
    rewrite lookup_insert_ne; [done|]. intros Eq. congruence.
Qed.

Lemma append_message_callers (l : Heap.loc) (c r t : pystr) (s : Heap.Store) :
  Heap.callers l s ->
  Heap.callers l (snd (Heap.append_message c r t s))
  /\ Heap.read_list (snd (Heap.append_message c r t s)) l = Heap.read_list s l.
Proof.
  intros Hcal. pose proof Hcal as ([Hh Hi] & [its Hl] & Hno).
  unfold Heap.append_message.
  destruct (Heap.lookup c (Heap.chats s)) as [chat|] eqn:Hc; [|done].
  apply heap_lookup_elem in Hc.
  destruct (Hh c chat Hc) as [items Hitems]. rewrite Hitems. simpl.
  pose proof (heap_fresh_None s) as Hf.
  set (m := fresh (dom (Heap.objects s))) in *.
  set (msg := Heap.ODict [(py "role", PStr r); (py "content", PStr t)]).
  assert (Hhm : Heap.history chat <> m) by (intros Eq; congruence).
  assert (Hhl : Heap.history chat <> l) by by apply (Hno c).
  assert (Hlm : l <> m) by (intros Eq; congruence).
  assert (Hkeep : forall i d, Heap.objects s !! i = Some (Heap.ODict d) ->
            <[Heap.history chat := Heap.OList (items ++ [m])]>
              (<[m := msg]> (Heap.objects s)) !! i = Some (Heap.ODict d)).
  { intros i d Hd. rewrite !lookup_insert_ne; [done| |]; intros Eq; congruence. }
  split; [split_and!|].
  - split; simpl.
    + intros c' chat' Hin. destruct (Hh c' chat' Hin) as [its' Hits'].
      destruct (decide (Heap.history chat = Heap.history chat')) as [E|E].
      * rewrite E, lookup_insert_eq. by eexists.
      * exists its'. rewrite !lookup_insert_ne; [done| |done]. intros Eq. congruence.
    + intros l0 its0 i Hl0 Hin.
      destruct (decide (Heap.history chat = l0)) as [<-|E].
      * rewrite lookup_insert_eq in Hl0. injection Hl0 as <-.
        apply elem_of_app in Hin as [Hin|Hin].
        -- destruct (Hi _ _ _ Hitems Hin) as [d Hd]. exists d. by apply Hkeep.
        -- apply list_elem_of_singleton in Hin as ->. exists [(py "role", PStr r); (py "content", PStr t)].
           by rewrite lookup_insert_ne, lookup_insert_eq.
      * rewrite lookup_insert_ne in Hl0 by done.
        destruct (decide (m = l0)) as [<-|E'].
        { by rewrite lookup_insert_eq in Hl0. }
        rewrite lookup_insert_ne in Hl0 by done.
        destruct (Hi _ _ _ Hl0 Hin) as [d Hd]. exists d. by apply Hkeep.
  - exists its. simpl. by rewrite !lookup_insert_ne.
  - done.
  - apply read_list_frame; [done| |done].
    simpl. by rewrite !lookup_insert_ne.
Qed.

Lemma append_all_callers (l : Heap.loc) (ops : list (pystr * pystr * pystr))
    (s : Heap.Store) :
  Heap.callers l s ->
  Heap.read_list (Heap.append_all ops s) l = Heap.read_list s l.
Proof.
  revert s. induction ops as [|[[c r] t] ops IH]; intros s Hs; simpl; [done|].
  destruct (append_message_callers l c r t s Hs) as [Hs' Hr].
  by rewrite (IH _ Hs'), Hr.
Qed.

(** C10.  For a chat of the store, [get_messages] returns a list object
    that did not exist before, with the items of the stored history.
    However its holder mutates that list, every chat of the store reads
    as it did; and whatever is appended afterwards, to this chat or to
    another, the returned list reads as it did when it was returned. *)
Theorem get_messages_returns_a_copy
    (s : Heap.Store) (chat_id : pystr) (chat : Heap.ChatRecord) :
  Heap.closed s ->
  Heap.lookup chat_id (Heap.chats s) = Some chat ->
  exists l s',
    Heap.get_messages chat_id s = (Ok l, s') /\
    Heap.objects s !! l = None /\
    l <> Heap.history chat /\
    Heap.chats s' = Heap.chats s /\
    Heap.read_list s' l = Heap.read_list s (Heap.history chat) /\
    (forall c, Heap.view s' c = Heap.view s c) /\
    (forall f c, Heap.view (Heap.mutate_list l f s') c = Heap.view s c) /\
    (forall ops, Heap.read_list (Heap.append_all ops s') l = Heap.read_list s' l).
Proof.
  intros Hclosed Hlook. pose proof Hclosed as [Hh Hi].
  pose proof (heap_lookup_elem _ _ _ Hlook) as Hin.
  destruct (Hh _ _ Hin) as [items Hitems].
  pose proof (heap_fresh_None s) as Hf.
  unfold Heap.get_messages. rewrite Hlook, Hitems. simpl.
  set (l := fresh (dom (Heap.objects s))) in *.
  set (s' := {| Heap.objects := <[l := Heap.OList items]> (Heap.objects s);
                Heap.chats := Heap.chats s |}).
  assert (Hne : l <> Heap.history chat) by (intros Eq; congruence).
  assert (Hkeep : forall o i d, Heap.objects s !! i = Some (Heap.ODict d) ->
            <[l := o]> (Heap.objects s) !! i = Some (Heap.ODict d)).
  { intros o i d Hd. rewrite lookup_insert_ne; [done|]. intros Eq. congruence. }
  assert (Hhist : forall o c ch, (c, ch) ∈ Heap.chats s ->
            <[l := o]> (Heap.objects s) !! Heap.history ch
            = Heap.objects s !! Heap.history ch).
  { intros o c ch Hc. destruct (Hh c ch Hc) as [its Hits].
    rewrite lookup_insert_ne; [done|]. intros Eq. congruence. }
  exists l, s'. split_and!; [done|done|done|done| | | |].
  - unfold Heap.read_list at 1. simpl. rewrite lookup_insert_eq.
    unfold Heap.read_list. rewrite Hitems. f_equal. apply map_ext_in.
    intros i Hi'. apply list_elem_of_In in Hi'.
    destruct (Hi _ _ _ Hitems Hi') as [d Hd]. unfold Heap.read_item. simpl.
    by rewrite (Hkeep _ i d Hd), Hd.
  - intros c. unfold Heap.view. simpl.
    destruct (Heap.lookup c (Heap.chats s)) as [ch|] eqn:Hc; [|done].
    apply read_list_frame; [done| |by apply Hkeep].
    apply (Hhist _ c). by apply heap_lookup_elem.
  - intros f c. unfold Heap.mutate_list. simpl. rewrite lookup_insert_eq.
    unfold Heap.view. simpl.
    destruct (Heap.lookup c (Heap.chats s)) as [ch|] eqn:Hc; [|done].
    apply read_list_frame; [done| |].
    + simpl. rewrite insert_insert_eq. apply (Hhist _ c). by apply heap_lookup_elem.
    + intros i d Hd. simpl. rewrite insert_insert_eq. by apply Hkeep.
  - intros ops. apply append_all_callers. split_and!.
    + apply (closed_alloc_list s (Heap.history chat) items Hclosed Hitems).
    + exists items. simpl. by rewrite lookup_insert_eq.
    + intros c ch Hc E. simpl in Hc. destruct (Hh c ch Hc) as [its Hits]. congruence.
Qed.

Lemma get_messages_returns_a_copy_witness :
  Heap.closed Heap.demo /\
  exists l s',
    Heap.get_messages (py "c1") Heap.demo = (Ok l, s') /\
    Heap.objects Heap.demo !! l = None /\
    l <> 0%nat /\
    Heap.chats s' = Heap.chats Heap.demo /\
    Heap.read_list s' l = Heap.read_list Heap.demo 0%nat /\
    (forall c, Heap.view s' c = Heap.view Heap.demo c) /\
    (forall f c, Heap.view (Heap.mutate_list l f s') c = Heap.view Heap.demo c) /\
    (forall ops, Heap.read_list (Heap.append_all ops s') l = Heap.read_list s' l).
Proof.
  assert (H : Heap.closed Heap.demo).
  { split.
    - intros c chat Hin. apply list_elem_of_singleton in Hin. injection Hin as -> ->.
      by exists [1%nat].
    - intros l items i Hl Hin. simpl in Hl.
      destruct (decide (l = 0%nat)) as [->|H0].
      + rewrite lookup_insert_eq in Hl. injection Hl as <-.
        apply list_elem_of_singleton in Hin as ->. by eexists.
      + rewrite lookup_insert_ne in Hl by done.
        destruct (decide (l = 1%nat)) as [->|H1].
        * by rewrite lookup_insert_eq in Hl.
        * by rewrite lookup_insert_ne in Hl. }
  split; [exact H|].
  exact (get_messages_returns_a_copy Heap.demo (py "c1") _ H eq_refl).
Defined.

(** The copy is of the list, not of its items: a dict reached through
    the returned list is the dict the store holds. *)
Lemma copy_shares_the_messages :
  let (l, s') := Heap.get_messages (py "c1") Heap.demo in
  let s'' := Heap.mutate_dict 1%nat (py "content") (PStr (py "bye")) s' in
  l = Ok 2%nat /\
  Heap.view s' (py "c1") = Heap.view Heap.demo (py "c1") /\
  Heap.view s'' (py "c1") <> Heap.view Heap.demo (py "c1").
Proof. vm_compute. split_and!; [done|done|discriminate]. Qed.

(** The two models agree on an append: the chat reads as before, with
    the new message after the others. *)
Lemma heap_append_message_view (c r t : pystr) (s : Heap.Store) :
  Heap.closed s ->
  is_Some (Heap.lookup c (Heap.chats s)) ->
  fst (Heap.append_message c r t s) = Ok tt /\
  Heap.view (snd (Heap.append_message c r t s)) c
  = (fun l => l ++ [message r t]) <$> Heap.view s c.
Proof.
  intros Hclosed [chat Hc]. pose proof Hclosed as [Hh Hi].
  pose proof (heap_lookup_elem _ _ _ Hc) as Hin.
  destruct (Hh _ _ Hin) as [items Hitems].
  pose proof (heap_fresh_None s) as Hf.
  unfold Heap.append_message, Heap.view. rewrite Hc, Hitems. simpl. rewrite Hc.
  split; [done|].
  set (m := fresh (dom (Heap.objects s))) in *.
  assert (Hhm : Heap.history chat <> m) by (intros Eq; congruence).
  unfold Heap.read_list. simpl. rewrite lookup_insert_eq, Hitems. simpl. f_equal.
  rewrite map_app. f_equal.
  - apply map_ext_in. intros i Hi'. apply list_elem_of_In in Hi'.
    destruct (Hi _ _ _ Hitems Hi') as [d Hd]. unfold Heap.read_item. simpl.
    rewrite !lookup_insert_ne; [done| |]; intros Eq; congruence.
  - simpl. unfold Heap.read_item. simpl.
    by rewrite lookup_insert_ne, lookup_insert_eq.
Qed.

(** * Further properties *)

(** ** Fan-out *)

Lemma for_each_put_queues (data : value) (qs : list nat) (w : World) :
  NoDup qs ->
  exists w',
    for_each (put data) qs w = (Ok tt, w') /\
    chats w' = chats w /\ disk w' = disk w /\ sse_queues w' = sse_queues w /\
    trace w' = trace w ++ map (fun q => EPut q data) qs /\
    forall q,
      queues w' !! q
      = if decide (q ∈ qs) then Some (default [] (queues w !! q) ++ [data])
        else queues w !! q.
Proof.
  revert w. induction qs as [|q0 qs IH]; intros w Hnd.
  - exists w. simpl. rewrite app_nil_r. by split_and!.
  - apply NoDup_cons in Hnd as [Hq0 Hnd].
    destruct (IH (snd (put data q0 w)) Hnd) as (w' & Hf & Hc & Hd & Hr & Ht & Hq).
    exists w'. split_and!; [exact Hf|done|done|done| |].
    + rewrite Ht. simpl. by rewrite <- app_assoc.
    + intros q. rewrite Hq. simpl.
      destruct (decide (q ∈ qs)) as [Hin|Hin].
      * rewrite decide_True by (apply elem_of_cons; by right).
        rewrite lookup_insert_ne; [done|]. intros ->. done.
      * destruct (decide (q = q0)) as [->|Hne].
        -- rewrite decide_True by (apply elem_of_cons; by left).
           by rewrite lookup_insert_eq.
        -- rewrite decide_False.
           ++ by rewrite lookup_insert_ne.
           ++ intros H. apply elem_of_cons in H as [?|?]; done.
Qed.

(** X3.  [_notify_sse] returns normally, puts the event once at the end
    of every registered queue, in the order of the registry, and touches
    nothing else: not the queues that are not registered, not the
    registry, not the chats, not the file.  With no subscriber it
    changes nothing at all. *)
Theorem _notify_sse_delivers_once (chat_id role content : pystr) (w : World) :
  NoDup (sse_queues w) ->
  let w' := snd (_notify_sse chat_id role content w) in
  fst (_notify_sse chat_id role content w) = Ok tt /\
  chats w' = chats w /\ disk w' = disk w /\ sse_queues w' = sse_queues w /\
  trace w'
  = trace w ++ map (fun q => EPut q (event chat_id role content)) (sse_queues w) /\
  (forall q,
     queues w' !! q
     = if decide (q ∈ sse_queues w)
       then Some (default [] (queues w !! q) ++ [event chat_id role content])
       else queues w !! q) /\
  (sse_queues w = [] -> w' = w).
Proof.
  intros Hnd. unfold _notify_sse.
  destruct (for_each_put_queues (event chat_id role content) (sse_queues w) w Hnd)
    as (w' & Hf & Hc & Hd & Hr & Ht & Hq).
  rewrite Hf. simpl. split_and!; try done.
  intros E. rewrite E in Hf. simpl in Hf. by injection Hf as <-.
Qed.

Lemma _notify_sse_delivers_once_witness :
  let w := snd (subscribe (snd (subscribe (boot NoFile)))) in
  let w' := snd (_notify_sse (py "c1") (py "assistant") (py "hello") w) in
  sse_queues w = [0; 1]%nat /\
  fst (_notify_sse (py "c1") (py "assistant") (py "hello") w) = Ok tt /\
  chats w' = chats w /\ disk w' = disk w /\ sse_queues w' = sse_queues w /\
  trace w'
  = trace w
    ++ map (fun q => EPut q (event (py "c1") (py "assistant") (py "hello")))
         (sse_queues w) /\
  (forall q,
     queues w' !! q
     = if decide (q ∈ sse_queues w)
       then Some (default [] (queues w !! q)
                  ++ [event (py "c1") (py "assistant") (py "hello")])
       else queues w !! q) /\
  (sse_queues w = [] -> w' = w).
Proof.
  split; [reflexivity|].
  apply (_notify_sse_delivers_once (py "c1") (py "assistant") (py "hello")
           (snd (subscribe (snd (subscribe (boot NoFile)))))).
  apply NoDup_cons. split; [|apply NoDup_singleton].
  intros H. apply list_elem_of_singleton in H. discriminate H.
Defined.

Lemma publish_all_queues (evs : list (pystr * pystr * pystr)) (w : World) :
  registry_ok w ->
  exists w',
    publish_all evs w = (Ok tt, w') /\
    chats w' = chats w /\ disk w' = disk w /\ sse_queues w' = sse_queues w /\
    registry_ok w' /\
    forall q,
      queues w' !! q
      = if decide (q ∈ sse_queues w)
        then Some (default [] (queues w !! q)
                   ++ map (fun e => event e.1.1 e.1.2 e.2) evs)
        else queues w !! q.
Proof.
  revert w. induction evs as [|[[c r] t] evs IH]; intros w Hw.
  - exists w. split_and!; try done. intros q.
    destruct (decide (q ∈ sse_queues w)) as [Hin|]; [|done].
    simpl. rewrite app_nil_r. destruct Hw as [_ Hdom].
    apply Hdom, elem_of_dom in Hin as [l ->]. done.
  - pose proof Hw as [Hnd Hdom].
    destruct (for_each_put_queues (event c r t) (sse_queues w) w Hnd)
      as (w1 & Hf & Hc & Hd & Hr & Ht & Hq).
    assert (Hw1 : registry_ok w1).
    { split; rewrite Hr; [done|]. intros q Hin. apply elem_of_dom.
      rewrite Hq, decide_True by done. by eexists. }
    destruct (IH w1 Hw1) as (w' & Hp & Hc' & Hd' & Hr' & Hw' & Hq').
    exists w'. split_and!.
    + unfold publish_all in *. simpl. unfold mbind, M_bind, _notify_sse at 1.
      by rewrite Hf.
    + by rewrite Hc'.
    + by rewrite Hd'.
    + by rewrite Hr'.
    + done.
    + intros q. rewrite Hq', Hr, Hq.
      destruct (decide (q ∈ sse_queues w)); [|done].
      simpl. by rewrite <- app_assoc.
Qed.

Lemma frames_idle (q k : nat) (w : World) :
  queues w !! q = Some [] ->
  frames q k w = (Ok (replicate k Heartbeat), w).
Proof.
  intros E. induction k as [|k IH]; simpl; [done|].
  unfold mbind, M_bind, next_frame. rewrite E. by rewrite IH.
Qed.

Lemma frames_drain (q : nat) (pending : list value) (k : nat) (w : World) :
  queues w !! q = Some pending ->
  exists w',
    frames q (length pending + k) w
    = (Ok (map Data pending ++ replicate k Heartbeat), w') /\
    queues w' !! q = Some [] /\
    chats w' = chats w /\ disk w' = disk w /\ sse_queues w' = sse_queues w /\
    trace w' = trace w.
Proof.
  revert w. induction pending as [|d rest IH]; intros w E.
  - exists w. simpl. by rewrite (frames_idle q k w E).
  - destruct (IH (set_queues (<[q := rest]> (queues w)) w)) as (w' & Hf & Hq & Hrest).
    { simpl. by rewrite lookup_insert_eq. }
    exists w'. split; [|done]. cbn [length Nat.add frames].
    unfold mbind, M_bind, next_frame. rewrite E. by rewrite Hf.
Qed.

(** X4.  A subscriber that registers and then sees any number of events
    published reads exactly these events, each once, in the order they
    were published, and only heartbeats once its queue is empty. *)
Theorem subscriber_reads_in_order
    (evs : list (pystr * pystr * pystr)) (k : nat) (w : World) :
  registry_ok w ->
  exists q w1 w2 w3,
    subscribe w = (Ok q, w1) /\
    publish_all evs w1 = (Ok tt, w2) /\
    frames q (length evs + k) w2
    = (Ok (map (fun e => Data (event e.1.1 e.1.2 e.2)) evs
           ++ replicate k Heartbeat), w3) /\
    queues w3 !! q = Some [].
Proof.
  intros Hw. destruct (run_op_registry OpSubscribe 0 w Hw) as [Hw1 _].
  change (registry_ok (snd (subscribe w))) in Hw1.
  destruct (publish_all_queues evs _ Hw1) as (w2 & Hp & _ & _ & _ & _ & Hq).
  set (q := fresh (dom (queues w))) in *.
  specialize (Hq q). rewrite decide_True in Hq.
  2: { simpl. apply elem_of_app. right. by apply list_elem_of_singleton. }
  simpl in Hq. rewrite lookup_insert_eq in Hq. simpl in Hq.
  destruct (frames_drain q _ k w2 Hq) as (w3 & Hf & Hq3 & _).
  rewrite length_map in Hf. rewrite <- (map_map _ Data).
  by exists q, (snd (subscribe w)), w2, w3.
Qed.

Lemma subscriber_reads_in_order_witness :
  let evs := [(py "c1", py "assistant", py "one");
              (py "c2", py "assistant", py "two")] in
  exists q w1 w2 w3,
    subscribe demo_store = (Ok q, w1) /\
    publish_all evs w1 = (Ok tt, w2) /\
    frames q (length evs + 1) w2
    = (Ok (map (fun e => Data (event e.1.1 e.1.2 e.2)) evs
           ++ replicate 1 Heartbeat), w3) /\
    queues w3 !! q = Some [].
Proof.
  apply (subscriber_reads_in_order
           [(py "c1", py "assistant", py "one");
            (py "c2", py "assistant", py "two")] 1 demo_store).
  split; [apply NoDup_nil_2|]. intros q Hq. by apply elem_of_nil in Hq.
Defined.

(** X5.  Once a queue has been taken out of the registry, nothing that
    is published reaches it, while every queue that stays registered
    still gets every event. *)
Theorem no_delivery_after_unsubscribe
    (q : nat) (evs : list (pystr * pystr * pystr)) (w : World) :
  registry_ok w ->
  q ∈ sse_queues w ->
  exists w1 w2,
    unsubscribe q w = (Ok tt, w1) /\
    publish_all evs w1 = (Ok tt, w2) /\
    queues w2 !! q = queues w !! q /\
    forall q', q' ∈ sse_queues w -> q' <> q ->
      queues w2 !! q'
      = Some (default [] (queues w !! q')
              ++ map (fun e => event e.1.1 e.1.2 e.2) evs).
Proof.
  intros Hw Hq. destruct (run_op_registry (OpUnsubscribe q) q w Hw) as [Hw1 _].
  destruct (unsubscribe_in q w Hq) as (l1 & l2 & E & Hl1 & Hun).
  simpl in Hw1. rewrite Hun in Hw1. simpl in Hw1.
  destruct (publish_all_queues evs _ Hw1) as (w2 & Hp & _ & _ & _ & _ & Hq2).
  simpl in Hq2. destruct Hw as [Hnd _]. rewrite E in Hnd.
  apply NoDup_app in Hnd as (_ & Hd & Hnd2). apply NoDup_cons in Hnd2 as [Hq2' _].
  eexists _, w2. split_and!; [exact Hun|exact Hp| |].
  - rewrite Hq2, decide_False; [done|].
    intros H. apply elem_of_app in H as [?|?]; done.
  - intros q' Hin Hne. rewrite Hq2, decide_True; [done|].
    rewrite E in Hin. apply elem_of_app in Hin as [?|Hin]; apply elem_of_app;
      [by left|right]. apply elem_of_cons in Hin as [?|?]; done.
Qed.

Lemma no_delivery_after_unsubscribe_witness :
  let w := snd (subscribe (snd (subscribe (boot NoFile)))) in
  let evs := [(py "c1", py "assistant", py "one")] in
  exists w1 w2,
    unsubscribe 0 w = (Ok tt, w1) /\
    publish_all evs w1 = (Ok tt, w2) /\
    queues w2 !! 0%nat = queues w !! 0%nat /\
    forall q', q' ∈ sse_queues w -> q' <> 0%nat ->
      queues w2 !! q'
      = Some (default [] (queues w !! q')
              ++ map (fun e => event e.1.1 e.1.2 e.2) evs).
Proof.
  apply (no_delivery_after_unsubscribe 0
           [(py "c1", py "assistant", py "one")]
           (snd (subscribe (snd (subscribe (boot NoFile)))))).
  - split.
    + apply NoDup_cons. split; [|apply NoDup_singleton].
      intros H. apply list_elem_of_singleton in H. discriminate H.
    + intros q Hq. apply elem_of_dom. simpl in Hq.
      apply elem_of_cons in Hq as [->|Hq]; [by eexists|].
      apply list_elem_of_singleton in Hq as ->. by eexists.
  - apply elem_of_cons. by left.
Defined.

(** ** The text of a frame *)

Lemma hex_digit_printable (n : N) : printable (hex_digit (n mod 16)).
Proof.
  assert (H : (n mod 16 < 16)%N) by by apply N.mod_lt.
  revert H. generalize (n mod 16)%N. intros m H.
  unfold printable, hex_digit. destruct (N.ltb_spec m 10); lia.
Qed.

Lemma u_escape_printable (n : N) : Forall printable (u_escape n).
Proof.
  unfold u_escape. repeat apply Forall_cons_2; try apply hex_digit_printable;
    try apply Forall_nil_2; unfold printable; lia.
Qed.

Lemma escape_char_printable (c : N) : Forall printable (escape_char c).
Proof.
  unfold escape_char.
  repeat match goal with
         | |- context [(c =? ?k)%N] =>
             destruct (N.eqb_spec c k);
             [repeat apply Forall_cons_2; try apply Forall_nil_2;
              unfold printable; lia|]
         end.
  destruct (N.leb_spec 32 c), (N.leb_spec c 126); cbn [andb];
    try (repeat apply Forall_cons_2; try apply Forall_nil_2; unfold printable; lia);
    destruct (N.ltb_spec c 65536);
    try apply Forall_app_2; apply u_escape_printable.
Qed.

Lemma encode_printable (s : pystr) : Forall printable (encode_basestring_ascii s).
Proof.
  unfold encode_basestring_ascii. apply Forall_app_2.
  - apply Forall_cons_2; [unfold printable; lia|apply Forall_nil_2].
  - apply Forall_app_2.
    + induction s as [|c s IH]; simpl; [apply Forall_nil_2|].
      apply Forall_app_2; [apply escape_char_printable|done].
    + apply Forall_cons_2; [unfold printable; lia|apply Forall_nil_2].
Qed.

Lemma uint_printable (d : Decimal.uint) :
  Forall printable (py (NilEmpty.string_of_uint d)).
Proof.
  induction d; simpl; try apply Forall_nil_2;
    (apply Forall_cons_2; [unfold printable; simpl; lia|done]).
Qed.

Lemma int_repr_printable (n : Z) : Forall printable (int_repr n).
Proof.
  unfold int_repr, NilZero.string_of_int, NilZero.string_of_uint.
  destruct (Z.to_int n) as [d|d].
  - destruct d; try apply (uint_printable (Decimal.D0 _));
      try (apply Forall_cons_2; [unfold printable; simpl; lia|apply uint_printable]).
    apply Forall_cons_2; [unfold printable; simpl; lia|apply Forall_nil_2].
  - apply (Forall_cons_2 _ 45%N); [unfold printable; lia|].
    destruct d; try (apply Forall_cons_2; [unfold printable; simpl; lia|apply uint_printable]).
    apply Forall_cons_2; [unfold printable; simpl; lia|apply Forall_nil_2].
Qed.

Lemma dumps_printable (v : value) : Forall printable (dumps v).
Proof.
  induction v as [|b|n|s|l IH|d IH] using value_ind_nested.
  - literal_printable.
  - destruct b; literal_printable.
  - apply int_repr_printable.
  - apply encode_printable.
  - cbn [dumps]. apply Forall_app_2; [literal_printable|].
    apply Forall_app_2; [|literal_printable].
    induction IH as [|x l Hx Hl IHl]; [apply Forall_nil_2|].
    destruct l as [|y l]; [done|].
    apply Forall_app_2; [done|]. apply Forall_app_2; [literal_printable|done].
  - cbn [dumps]. apply Forall_app_2; [literal_printable|].
    apply Forall_app_2; [|literal_printable].
    induction IH as [|[k x] d Hx Hd IHd]; [apply Forall_nil_2|].
    destruct d as [|y d]; simpl in Hx.
    + apply Forall_app_2; [apply encode_printable|].
      apply Forall_app_2; [literal_printable|done].
    + apply Forall_app_2; [apply encode_printable|].
      apply Forall_app_2; [literal_printable|].
      apply Forall_app_2; [done|]. apply Forall_app_2; [literal_printable|done].
Qed.

(** X6.  Every frame the generator yields is one line of printable ASCII
    followed by an empty line: the text of an event holds no line feed
    and no carriage return, whatever the chat id and the content are, so
    a message cannot end its frame or start another. *)
Theorem frame_is_one_line (f : frame) :
  exists line,
    frame_text f = line ++ [10; 10]%N /\
    Forall printable line /\
    match f with
    | Data d => line = py "data: " ++ dumps d
    | Heartbeat => line = py ": heartbeat"
    end.
Proof.
  destruct f as [d|]; unfold frame_text.
  - exists (py "data: " ++ dumps d). split_and!; [by rewrite <- app_assoc| |done].
    apply Forall_app_2; [literal_printable|apply dumps_printable].
  - exists (py ": heartbeat"). split_and!; [done|literal_printable|done].
Qed.

(** ** What the routes do with a request *)

Lemma persisted_after_append (c r t : pystr) (chat : ChatRecord) (l : list value)
    (rows : list ChatRecord) (w : World) :
  dict_get (PStr c) (chats w) = Some chat ->
  sorted_desc
    (values (set_chats (dict_set (PStr c)
               {| id := id chat; title := title chat;
                  created_at := created_at chat;
                  history := PList (l ++ [message r t]) |} (chats w)) w))
  = Ok rows ->
  persisted c (message r t)
    (add_trace (EWrite (payload_of rows))
       (set_disk (Json (payload_of rows))
          (set_chats (dict_set (PStr c)
             {| id := id chat; title := title chat;
                created_at := created_at chat;
                history := PList (l ++ [message r t]) |} (chats w)) w))).
Proof.
  intros Hget Hrows.
  exists rows, {| id := id chat; title := title chat; created_at := created_at chat;
                  history := PList (l ++ [message r t]) |}, l.
  simpl. split_and!; [done| | |done].
  - rewrite (sorted_desc_perm _ _ Hrows).
    apply (dict_get_values (PStr c)). simpl.
    rewrite dict_get_set_str. by rewrite decide_True.
  - rewrite dict_get_set_str. by rewrite decide_True.
Qed.

(** X7.  A message with non-blank content for a chat the store holds:
    the stripped content is appended and written to the file first, the
    hand-off to the bus runs on the world that already holds it, and the
    answer is 202 when the hand-off returns and 500 with the exception
    when it raises; in the second case too the message stays in the
    history. *)
Theorem post_message_appends_then_hands_off
    (hm : pystr -> pystr -> pystr -> M unit)
    (chat_id : pystr) (data : value) (t : pystr) (l : list value) (w : World) :
  get_method data (py "content") (PStr []) = Ok (PStr t) ->
  strip t <> [] ->
  holds_history chat_id l w ->
  exists w1,
    append_message chat_id (py "user") (strip t) w = (Ok tt, w1) /\
    persisted chat_id (message (py "user") (strip t)) w1 /\
    holds_history chat_id (l ++ [message (py "user") (strip t)]) w1 /\
    Routes.post_message hm chat_id data w
    = match hm (py "web-user") chat_id (strip t) w1 with
      | (Ok _, w2) =>
          (Ok (Reply 202 (PDict [(py "status", PStr (py "accepted"))])), w2)
      | (Raise e, w2) =>
          (Ok (ReplyError 500 e), add_trace (ELogException e) w2)
      end.
Proof.
  intros Hget Ht Hw. pose proof Hw as [(chat & Hc & Hl) Hs].
  destruct (append_message_found chat_id (py "user") (strip t) chat l w Hc Hl Hs)
    as (rows & Hrows & Happ).
  eexists. split_and!; [exact Happ| | |].
  - by apply persisted_after_append.
  - split; [|by eauto]. eexists. simpl.
    rewrite dict_get_set_str, decide_True by done. done.
  - unfold Routes.post_message, mbind, M_bind, lift. rewrite Hget. simpl.
    rewrite decide_False by done. unfold try_except. rewrite Happ.
    by destruct (hm (py "web-user") chat_id (strip t) _) as [[[]|e] w2].
Qed.

Lemma post_message_appends_then_hands_off_witness :
  let cid := drawn_id first_draw in
  let hm : pystr -> pystr -> pystr -> M unit := fun _ _ _ => raise ValueError in
  exists w1,
    append_message cid (py "user") (strip (py " again ")) demo_store = (Ok tt, w1) /\
    persisted cid (message (py "user") (strip (py " again "))) w1 /\
    holds_history cid
      ([message (py "user") (py "hi")]
       ++ [message (py "user") (strip (py " again "))]) w1 /\
    Routes.post_message hm cid (PDict [(py "content", PStr (py " again "))]) demo_store
    = match hm (py "web-user") cid (strip (py " again ")) w1 with
      | (Ok _, w2) =>
          (Ok (Reply 202 (PDict [(py "status", PStr (py "accepted"))])), w2)
      | (Raise e, w2) =>
          (Ok (ReplyError 500 e), add_trace (ELogException e) w2)
      end.
Proof.
  apply (post_message_appends_then_hands_off (fun _ _ _ => raise ValueError)
           (drawn_id first_draw) (PDict [(py "content", PStr (py " again "))])
           (py " again ") [message (py "user") (py "hi")] demo_store).
  - reflexivity.
  - discriminate.
  - split; [eexists; split; reflexivity|eexists; reflexivity].
Defined.

(** X8.  A request body that is not an object, or whose title (for a new
    chat) or content (for a message) is there and is not a string, makes
    the route raise [AttributeError] before it looks at the store: the
    exception is not caught by the route, and nothing has changed. *)
Theorem routes_raise_on_untyped_body
    (hm : pystr -> pystr -> pystr -> M unit)
    (chat_id uuid now : pystr) (data : value) (w : World) :
  ((forall s, get_method data (py "title") (PStr []) <> Ok (PStr s)) ->
   Routes.create_chat data uuid now w = (Raise AttributeError, w))
  /\ ((forall s, get_method data (py "content") (PStr []) <> Ok (PStr s)) ->
      Routes.post_message hm chat_id data w = (Raise AttributeError, w)).
Proof.
  split; intros H;
    unfold Routes.create_chat, Routes.post_message, mbind, M_bind, lift;
    (destruct data as [| | | | |d]; try done); simpl in *;
    match goal with |- context [default ?a ?o] => destruct (default a o) as [| | |s| |] eqn:E end;
    try done; by destruct (H s).
Qed.

Lemma routes_raise_on_untyped_body_witness :
  Routes.create_chat PNone (draw_uuid first_draw) (draw_now first_draw) demo_store
  = (Raise AttributeError, demo_store)
  /\ Routes.post_message (fun _ _ _ => mret tt) (drawn_id first_draw)
       (PDict [(py "content", PInt 3)]) demo_store
     = (Raise AttributeError, demo_store).
Proof.
  split.
  - apply (routes_raise_on_untyped_body (fun _ _ _ => mret tt)
             (drawn_id first_draw) (draw_uuid first_draw) (draw_now first_draw)
             PNone demo_store).
    intros s. discriminate.
  - apply (routes_raise_on_untyped_body (fun _ _ _ => mret tt)
             (drawn_id first_draw) (draw_uuid first_draw) (draw_now first_draw)
             (PDict [(py "content", PInt 3)]) demo_store).
    intros s. discriminate.
Defined.

(** X9.  The two reading routes never change anything, whatever they
    answer.  [GET /api/chats/<id>/messages] answers 404 exactly when the
    id is unknown.  When the chat is there it answers 200 with the
    messages if the history is a list (with its characters or its keys
    if the history is a string or an object, as [list] makes them), and
    raises [TypeError], which the route does not catch, if the history
    is null, a boolean or a number. *)
Theorem reading_routes_change_nothing (chat_id : pystr) (w : World) :
  snd (Routes.list_chats w) = w /\
  snd (Routes.get_messages chat_id w) = w /\
  (fst (Routes.get_messages chat_id w)
   = Ok (Reply 404 (error_body "chat not found"))
   <-> dict_get (PStr chat_id) (chats w) = None) /\
  (forall chat l,
     dict_get (PStr chat_id) (chats w) = Some chat ->
     history chat = PList l ->
     fst (Routes.get_messages chat_id w) = Ok (Reply 200 (PList l))) /\
  fst (Routes.get_messages chat_id w)
  = match dict_get (PStr chat_id) (chats w) with
    | None => Ok (Reply 404 (PDict [(py "error", PStr (py "chat not found"))]))
    | Some chat =>
        match history chat with
        | PList l => Ok (Reply 200 (PList l))
        | PStr s => Ok (Reply 200 (PList (map (fun c => PStr [c]) s)))
        | PDict d => Ok (Reply 200 (PList (map (fun kv => PStr kv.1) d)))
        | PNone | PBool _ | PInt _ => Raise TypeError
        end
    end.
Proof.
  split_and!.
  - unfold Routes.list_chats, list_chats, mbind, M_bind, lift.
    by destruct (sorted_desc (values w)).
  - unfold Routes.get_messages, try_except_KeyError, try_except, get_messages,
      mbind, M_bind, lift.
    destruct (dict_get (PStr chat_id) (chats w)) as [chat|]; [|done].
    by destruct (iter (history chat)) as [l|[]].
  - unfold Routes.get_messages, try_except_KeyError, try_except, get_messages,
      mbind, M_bind, lift.
    destruct (dict_get (PStr chat_id) (chats w)) as [chat|]; [|done].
    split; [|done]. by destruct (history chat) as [| | |s|l|d].
  - intros chat l Hc Hl.
    unfold Routes.get_messages, try_except_KeyError, try_except, get_messages,
      mbind, M_bind, lift. by rewrite Hc, Hl.
  - unfold Routes.get_messages, try_except_KeyError, try_except, get_messages,
      mbind, M_bind, lift.
    destruct (dict_get (PStr chat_id) (chats w)) as [chat|]; [|done].
    by destruct (history chat) as [| | |s|l|d].
Qed.

(** ** The file keeps step with the dict *)














(** X11.  [create_chat] binds the record before it saves and undoes
    nothing: when the rows cannot be sorted (a record loaded from the
    file carries a timestamp that does not compare with a string), the
    call raises [TypeError], the new chat is in the dict all the same,
    and the file is not written. *)
Theorem create_chat_keeps_the_record_when_save_fails
    (d : draw) (e : exn) (w : World) :
  sorted_desc (map snd (dict_set (PStr (drawn_id d)) (new_record d) (chats w)))
  = Raise e ->
  exists w',
    create_chat (draw_uuid d) (draw_now d) (draw_title d) w
    = (Raise TypeError, w') /\
    dict_get (PStr (drawn_id d)) (chats w') = Some (new_record d) /\
    disk w' = disk w /\ trace w' = trace w.
Proof.
  intros He. pose proof (sorted_desc_raises _ _ He) as ->.
  exists (set_chats (dict_set (PStr (drawn_id d)) (new_record d) (chats w)) w).
  split_and!; [|simpl; by rewrite dict_get_set_str, decide_True|done|done].
  unfold create_chat, mbind, M_bind, chats_setitem, _save, lift, modify, emit.
  simpl. unfold values. simpl. fold (drawn_id d). fold (new_record d).
  by rewrite He.
Qed.

Lemma create_chat_keeps_the_record_when_save_fails_witness :
  let w := ChatStore_init snapshot_numeric_stamp in
  trace w = [] /\
  exists w',
    create_chat (draw_uuid first_draw) (draw_now first_draw)
      (draw_title first_draw) w
    = (Raise TypeError, w') /\
    dict_get (PStr (drawn_id first_draw)) (chats w') = Some (new_record first_draw) /\
    disk w' = disk w /\ trace w' = trace w.
Proof.
  split; [reflexivity|].
  apply (create_chat_keeps_the_record_when_save_fails first_draw TypeError
           (ChatStore_init snapshot_numeric_stamp)).
  reflexivity.
Defined.

(** ** An id that the file holds more than once *)

Lemma dict_get_set (k a : value) (v : ChatRecord) (c : list (value * ChatRecord)) :
  dict_ok c -> hashable k = true ->
  dict_get a (dict_set k v c) = if py_eq k a then Some v else dict_get a c.
Proof.
  intros Hc Hk. induction Hc as [|k0 r0 c Hh Hid Hall Hc IH]; simpl.
  - by destruct (py_eq k a).
  - destruct (py_eq k0 k) eqn:E1; simpl.
    + destruct (py_eq k0 a) eqn:E2, (py_eq k a) eqn:E3; try done; exfalso.
      * rewrite (py_eq_trans k k0 a) in E3; try done. by rewrite py_eq_sym.
      * rewrite (py_eq_trans k0 k a) in E2; done.
    + destruct (py_eq k0 a) eqn:E2, (py_eq k a) eqn:E3; try done.
      exfalso. pose proof (py_eq_hashable _ _ Hh E2) as Ha.
        rewrite (py_eq_trans k0 a k) in E1; try done. by rewrite py_eq_sym.
Qed.

Lemma record_of_hashable (item : value) (r : ChatRecord) :
  record_of item = Some r -> hashable (id r) = true.
Proof.
  destruct item as [| | | | |d]; try done. simpl.
  repeat case_match; try done. by intros [= <-].
Qed.

Lemma loaded_prefix_hashable (items : list value) :
  Forall (fun r => hashable (id r) = true) (loaded_prefix items).
Proof.
  induction items as [|x items IH]; simpl; [done|].
  destruct (record_of x) as [r|] eqn:E; [|done].
  constructor; [by apply (record_of_hashable x)|done].
Qed.

Lemma insert_all_get (a : value) (rs : list ChatRecord)
    (acc : list (value * ChatRecord)) :
  dict_ok acc -> Forall (fun r => hashable (id r) = true) rs ->
  dict_get a (insert_all rs acc)
  = foldl (fun o r => if py_eq (id r) a then Some r else o) (dict_get a acc) rs.
Proof.
  revert acc. induction rs as [|r rs IH]; intros acc Hacc Hrs; [done|].
  apply Forall_cons in Hrs as [Hr Hrs]. unfold insert_all in *. simpl.
  rewrite IH; [|by apply dict_ok_set; [| |apply py_eq_refl]|done].
  by rewrite dict_get_set.
Qed.

Lemma load_chats (f : snapshot_file) :
  chats (ChatStore_init f)
  = insert_all (loaded_prefix (default [] (items_of f))) [].
Proof.
  unfold ChatStore_init, _load. destruct f as [| |raw]; [done|done|].
  simpl. unfold try_except, mbind, M_bind, lift, read_json. simpl.
  destruct (loads_dumps raw) as [| | | | |d]; simpl; try done.
  destruct (iter (default (PList []) (str_lookup (py "chats") d))) as [items|e];
    simpl; [|done].
  destruct (for_each_load_item items (boot (Json raw))) as (r & -> & Hr).
  by destruct r as [[]|e].
Qed.

(** X12.  Whatever the file holds, after start-up a chat id finds the
    last of the records with that id among the items that were loaded
    (those before the first item no record can be built from): when the
    file names an id more than once, the later record replaces the
    earlier one. *)
Theorem load_last_record_wins (f : snapshot_file) (chat_id : pystr) :
  dict_get (PStr chat_id) (chats (ChatStore_init f))
  = last_bound (PStr chat_id) (loaded_prefix (default [] (items_of f))).
Proof.
  rewrite load_chats.
  rewrite insert_all_get; [done|apply dict_ok_nil|apply loaded_prefix_hashable].
Qed.

Example load_items_twice :
  let w := ChatStore_init (snapshot items_twice) in
  trace w = [] /\ map fst (chats w) = [PStr (py "a"); PStr (py "b")] /\
  (title <$> dict_get (PStr (py "a")) (chats w)) = Some (PStr (py "three")).
Proof. split_and!; reflexivity. Qed.

(** ** Rows with the same timestamp *)

Lemma str_lt_irrefl (s : pystr) : str_lt s s = false.
Proof.
  destruct (str_lt s s) eqn:E; [|done]. pose proof (str_lt_asym _ _ E). congruence.
Qed.

Lemma insert_desc_stamped (s : pystr) (x : ChatRecord) (l r : list ChatRecord) :
  insert_desc x l = Ok r -> stamped s r = stamped s (x :: l).
Proof.
  revert r. induction l as [|y l IH]; intros r; simpl.
  - by intros [= <-].
  - destruct (py_lt (created_at x) (created_at y)) as [[]|] eqn:Hlt; simpl; [| |done].
    + destruct (insert_desc x l) as [r0|]; simpl; [|done]. intros [= <-].
      unfold stamped in *. simpl. rewrite (IH r0 eq_refl). simpl.
      destruct (py_eq (created_at x) (PStr s)) eqn:Ex;
        destruct (py_eq (created_at y) (PStr s)) eqn:Ey; try done.
      apply py_eq_str_l in Ex, Ey. rewrite Ex, Ey in Hlt. simpl in Hlt.
      by rewrite str_lt_irrefl in Hlt.
    + by intros [= <-].
Qed.

Lemma sorted_desc_stamped (s : pystr) (l r : list ChatRecord) :
  sorted_desc l = Ok r -> stamped s r = stamped s l.
Proof.
  revert r. induction l as [|x l IH]; intros r; simpl.
  - by intros [= <-].
  - destruct (sorted_desc l) as [r0|]; simpl; [|done]. intros H.
    rewrite (insert_desc_stamped s _ _ _ H). unfold stamped in *. simpl.
    by rewrite (IH r0 eq_refl).
Qed.

(** X13.  [list_chats] keeps ties in the order of the dict: on a store
    whose records carry string timestamps it returns, and for every
    timestamp the rows that carry it come in the order in which their
    chats were first bound. *)
Theorem list_chats_keeps_ties_in_order (w : World) :
  stamps_are_str w ->
  exists rows,
    list_chats w = (Ok (PList (map summary rows)), w) /\
    forall s, stamped s rows = stamped s (values w).
Proof.
  intros Hw. destruct (sorted_desc_str _ Hw) as (rows & Hrows & _ & _).
  exists rows. split.
  - unfold list_chats, mbind, M_bind, lift. by rewrite Hrows.
  - intros s. by apply sorted_desc_stamped.
Qed.

Lemma list_chats_keeps_ties_in_order_witness :
  let w := snd (create_all [first_draw; third_draw; tie_draw] (boot NoFile)) in
  stamps_are_str w /\
  exists rows,
    list_chats w = (Ok (PList (map summary rows)), w) /\
    forall s, stamped s rows = stamped s (values w).
Proof.
  assert (H : stamps_are_str
                (snd (create_all [first_draw; third_draw; tie_draw] (boot NoFile)))).
  { repeat constructor. }
  split; [exact H|].
  exact (list_chats_keeps_ties_in_order
           (snd (create_all [first_draw; third_draw; tie_draw] (boot NoFile))) H).
Defined.

(** ** What an append leaves alone *)

Lemma insert_desc_without_history (x : ChatRecord) (l : list ChatRecord) :
  insert_desc (without_history x) (map without_history l)
  = match insert_desc x l with
    | Ok r => Ok (map without_history r)
    | Raise e => Raise e
    end.
Proof.
  induction l as [|y l IH]; [done|]. cbn [map insert_desc].
  change (created_at (without_history x)) with (created_at x).
  change (created_at (without_history y)) with (created_at y).
  destruct (py_lt (created_at x) (created_at y)) as [[]|]; simpl; [|done|done].
  rewrite IH. by destruct (insert_desc x l).
Qed.

Lemma sorted_desc_without_history (l : list ChatRecord) :
  sorted_desc (map without_history l)
  = match sorted_desc l with
    | Ok r => Ok (map without_history r)
    | Raise e => Raise e
    end.
Proof.
  induction l as [|x l IH]; [done|]. cbn [map sorted_desc]. rewrite IH.
  destruct (sorted_desc l) as [r|]; simpl; [|done].
  apply insert_desc_without_history.
Qed.

Lemma summary_without_history (rows : list ChatRecord) :
  map summary (map without_history rows) = map summary rows.
Proof. rewrite map_map. by apply map_ext. Qed.

Lemma dict_set_without_history (k : value) (v v' : ChatRecord)
    (d : list (value * ChatRecord)) :
  dict_get k d = Some v ->
  without_history v' = without_history v ->
  map fst (dict_set k v' d) = map fst d /\
  map without_history (map snd (dict_set k v' d))
  = map without_history (map snd d).
Proof.
  intros Hget Hv. induction d as [|[k0 v0] d IH]; simpl in *; [done|].
  destruct (py_eq k0 k); simpl.
  - injection Hget as ->. by rewrite Hv.
  - destruct (IH Hget) as [-> ->]. done.
Qed.

(** X14.  An append to a chat the store holds touches that chat's
    messages and nothing else: the keys of the dict and their order
    stay, every other chat id finds the record it found before, the
    chat keeps its id, title and timestamp, and [list_chats] returns
    what it returned before. *)
Theorem append_message_touches_one_history
    (c r t : pystr) (chat : ChatRecord) (l : list value) (w : World) :
  dict_get (PStr c) (chats w) = Some chat ->
  history chat = PList l ->
  stamps_are_str w ->
  exists w' chat',
    append_message c r t w = (Ok tt, w') /\
    map fst (chats w') = map fst (chats w) /\
    (forall c', c' <> c ->
       dict_get (PStr c') (chats w') = dict_get (PStr c') (chats w)) /\
    dict_get (PStr c) (chats w') = Some chat' /\
    same_summary chat' chat /\
    fst (list_chats w') = fst (list_chats w).
Proof.
  intros Hget Hl Hw.
  destruct (sorted_desc_str _ Hw) as (rows0 & Hrows0 & _ & _).
  destruct (append_message_found c r t chat l w Hget Hl (ex_intro _ rows0 Hrows0))
    as (rows & Hrows & ->).
  set (chat' := {| id := id chat; title := title chat; created_at := created_at chat;
                   history := PList (l ++ [message r t]) |}) in *.
  destruct (dict_set_without_history (PStr c) chat chat' (chats w) Hget eq_refl)
    as [Hkeys Hvals].
  eexists _, chat'. split; [done|]. simpl. split_and!; [done| | |done|].
  - intros c' Hne. by rewrite dict_get_set_str, decide_False.
  - by rewrite dict_get_set_str, decide_True.
  - unfold list_chats, mbind, M_bind, lift, values in *. simpl in *.
    rewrite Hrows, Hrows0. simpl. f_equal. f_equal.
    rewrite <- (summary_without_history rows), <- (summary_without_history rows0).
    f_equal.
    pose proof (sorted_desc_without_history (map snd (dict_set (PStr c) chat' (chats w))))
      as H1.
    pose proof (sorted_desc_without_history (map snd (chats w))) as H0.
    rewrite Hrows in H1. rewrite Hrows0 in H0. rewrite Hvals in H1. congruence.
Qed.

Lemma append_message_touches_one_history_witness :
  let c := drawn_id first_draw in
  let w := demo_store in
  exists w' chat',
    append_message c (py "assistant") (py "hello") w = (Ok tt, w') /\
    map fst (chats w') = map fst (chats w) /\
    (forall c', c' <> c ->
       dict_get (PStr c') (chats w') = dict_get (PStr c') (chats w)) /\
    dict_get (PStr c) (chats w') = Some chat' /\
    same_summary chat' (new_record first_draw) /\
    fst (list_chats w') = fst (list_chats w).
Proof.
  destruct (append_message_touches_one_history (drawn_id first_draw)
              (py "assistant") (py "hello")
              {| id := PStr (drawn_id first_draw); title := PStr (py "first");
                 created_at := PStr (draw_now first_draw);
                 history := PList [message (py "user") (py "hi")] |}
              [message (py "user") (py "hi")] demo_store)
    as (w' & chat' & H); [reflexivity|reflexivity|repeat constructor|].
  exists w', chat'. exact H.
Defined.

(** ** What [strip] leaves of a title *)

Lemma lstrip_split (s : pystr) :
  exists a, s = a ++ lstrip s /\ forallb isspace a = true.
Proof.
  induction s as [|c s (a & Hs & Ha)]; [by exists []|]. simpl.
  destruct (isspace c) eqn:Hc.
  - exists (c :: a). simpl. rewrite Hc, Ha. split; [by f_equal|done].
  - by exists [].
Qed.

Lemma lstrip_head (s : pystr) (c : N) :
  head (lstrip s) = Some c -> isspace c = false.
Proof.
  induction s as [|d s IH]; simpl; [done|].
  destruct (isspace d) eqn:Hd; [done|]. simpl. by intros [= <-].
Qed.

Lemma rev_is_reverse {A : Type} (l : list A) : rev l = reverse l.
Proof. unfold reverse. apply rev_alt. Qed.

Lemma forallb_rev (f : N -> bool) (l : list N) :
  forallb f l = true -> forallb f (rev l) = true.
Proof.
  rewrite !forallb_forall. intros H x Hx. apply H. by apply in_rev.
Qed.

Lemma rstrip_split (s : pystr) :
  exists b, s = rstrip s ++ b /\ forallb isspace b = true.
Proof.
  destruct (lstrip_split (rev s)) as (a & Hs & Ha).
  exists (rev a). split; [|by apply forallb_rev].
  unfold rstrip. rewrite <- rev_app_distr, <- Hs. by rewrite rev_involutive.
Qed.

Lemma rstrip_last (s : pystr) (c : N) :
  last (rstrip s) = Some c -> isspace c = false.
Proof.
  unfold rstrip. rewrite rev_is_reverse, last_reverse. apply lstrip_head.
Qed.

Lemma rstrip_head (s : pystr) (c : N) :
  head (rstrip s) = Some c -> head s = Some c.
Proof.
  destruct (rstrip_split s) as (b & Hs & _). intros H.
  rewrite Hs, head_app. by rewrite H.
Qed.

Lemma strip_split (s : pystr) :
  exists a b, s = a ++ strip s ++ b
              /\ forallb isspace a = true /\ forallb isspace b = true.
Proof.
  destruct (lstrip_split s) as (a & Hs & Ha).
  destruct (rstrip_split (lstrip s)) as (b & Hl & Hb).
  exists a, b. unfold strip. by rewrite <- Hl.
Qed.

Lemma strip_trimmed (s : pystr) : forallb isspace s = false -> trimmed (strip s).
Proof.
  intros Hs. split_and!.
  - intros E. apply strip_nil_iff in E. congruence.
  - intros c Hc. apply rstrip_head in Hc. by apply (lstrip_head s).
  - intros c. apply rstrip_last.
Qed.

(** X15.  A chat made through [POST /api/chats] never carries a title
    that is empty or that begins or ends with whitespace: the record
    bound under the new id has the title of the request without the
    whitespace around it, and nothing but whitespace was taken off. *)
Theorem stored_title_is_trimmed (w : World) (data : value) (t uuid now : pystr) :
  get_method data (py "title") (PStr []) = Ok (PStr t) ->
  forallb isspace t = false ->
  stamps_are_str w ->
  exists chat w' t' a b,
    Routes.create_chat data uuid now w
    = (Ok (Reply 201 (summary chat)), w') /\
    dict_get (PStr (firstn 12 uuid)) (chats w') = Some chat /\
    title chat = PStr t' /\ trimmed t' /\
    t = a ++ t' ++ b /\ forallb isspace a = true /\ forallb isspace b = true.
Proof.
  intros Hget Ht Hw.
  set (d := {| draw_uuid := uuid; draw_now := now; draw_title := strip t |}).
  destruct (create_chat_str d w Hw) as (rows & Hc & _).
  destruct (strip_split t) as (a & b & Hs & Ha & Hb).
  exists (new_record d), (created d rows w), (strip t), a, b.
  split_and!; [|apply (created_holds_record d rows w)|done|by apply strip_trimmed
               |done|done|done].
  unfold Routes.create_chat, mbind, M_bind, lift. rewrite Hget. simpl.
  rewrite decide_False.
  2: { intros E. apply strip_nil_iff in E. congruence. }
  simpl in Hc. by rewrite Hc.
Qed.

Lemma stored_title_is_trimmed_witness :
  let data := PDict [(py "title", PStr (py "  Demo "))] in
  exists chat w' t' a b,
    Routes.create_chat data (draw_uuid first_draw) (draw_now first_draw)
      (boot NoFile)
    = (Ok (Reply 201 (summary chat)), w') /\
    dict_get (PStr (firstn 12 (draw_uuid first_draw))) (chats w') = Some chat /\
    title chat = PStr t' /\ trimmed t' /\
    py "  Demo " = a ++ t' ++ b /\
    forallb isspace a = true /\ forallb isspace b = true.
Proof.
  apply (stored_title_is_trimmed (boot NoFile)
           (PDict [(py "title", PStr (py "  Demo "))]) (py "  Demo ")
           (draw_uuid first_draw) (draw_now first_draw)).
  - reflexivity.
  - reflexivity.
  - apply Forall_nil_2.
Defined.

(** ** A reply and the open streams *)

(** X16.  A reply for a chat the store holds, on a store whose rows can
    be sorted: [send] returns normally, the reply is the last message of
    the chat, the registry is as it was, and every registered queue has
    gained the event of the reply once, at its end; no other queue has
    changed. *)
Theorem send_reaches_every_open_stream
    (chat_id content : pystr) (l : list value) (w : World) :
  holds_history chat_id l w ->
  NoDup (sse_queues w) ->
  exists w',
    send chat_id content w = (Ok tt, w') /\
    holds_history chat_id (l ++ [message (py "assistant") content]) w' /\
    sse_queues w' = sse_queues w /\
    forall q,
      queues w' !! q
      = if decide (q ∈ sse_queues w)
        then Some (default [] (queues w !! q)
                   ++ [event chat_id (py "assistant") content])
        else queues w !! q.
Proof.
  intros [(chat & Hget & Hl) Hs] Hnd.
  destruct (append_message_found chat_id (py "assistant") content chat l w Hget Hl Hs)
    as (rows & Hrows & Happ).
  simpl in Hrows, Happ.
  set (chat' := {| id := id chat; title := title chat; created_at := created_at chat;
                   history := PList (l ++ [message (py "assistant") content]) |}) in *.
  set (w1 := add_trace (EWrite (payload_of rows))
               (set_disk (Json (payload_of rows))
                  (set_chats (dict_set (PStr chat_id) chat' (chats w)) w))) in *.
  destruct (for_each_put_queues (event chat_id (py "assistant") content)
              (sse_queues w1) w1 Hnd) as (w' & Hf & Hc & Hd & Hr & Ht & Hq).
  exists w'. split_and!; [|split|done|done].
  - unfold send, try_except_KeyError, try_except, mbind, M_bind.
    rewrite Happ. unfold _notify_sse. by rewrite Hf.
  - exists chat'. rewrite Hc. simpl.
    by rewrite dict_get_set_str, decide_True.
  - exists rows. unfold values in *. by rewrite Hc.
Qed.

Lemma send_reaches_every_open_stream_witness :
  let w := snd (subscribe demo_store) in
  exists w',
    send (drawn_id first_draw) (py "hello") w = (Ok tt, w') /\
    holds_history (drawn_id first_draw)
      ([message (py "user") (py "hi")]
       ++ [message (py "assistant") (py "hello")]) w' /\
    sse_queues w' = sse_queues w /\
    forall q,
      queues w' !! q
      = if decide (q ∈ sse_queues w)
        then Some (default [] (queues w !! q)
                   ++ [event (drawn_id first_draw) (py "assistant") (py "hello")])
        else queues w !! q.
Proof.
  apply (send_reaches_every_open_stream (drawn_id first_draw) (py "hello")
           [message (py "user") (py "hi")] (snd (subscribe demo_store))).
  - split; [eexists; split; reflexivity|eexists; reflexivity].
  - apply NoDup_singleton.
Defined.
